(** * filen-web: sync and drive context menus, public-link panel, utilities

    A shallow embedding of the action handlers of the sync context menu
    ([togglePause], [deleteSync]), of the drive list context menu
    ([createDirectory]), of the directory public-link panel ([toggleStatus],
    [save]) and of the utilities [convertTimestampToMs] and [formatBytes]
    (over the rationals in [Utils], over binary64 numbers in [Binary64]),
    then of what else these components do (the listeners, the rendered sync
    menu, [onOpenChange], the staged edits, [copyLink], [decryptLinkKey]),
    followed by the properties established about them. *)

From Stdlib Require Import ZArith QArith Qround Qabs Qpower Lia Lqa Ascii String.
From stdpp Require Import base list strings pretty gmap.

Local Open Scope Z_scope.

(** ** Host-language values *)

Module JS.

(** A thrown value as the handlers use it: they read [e.message] and fall
    back on [e.toString()] through the [??] operator, so the message is
    optional ([None] stands for [null] or [undefined]) and the string form is
    always there. *)
Record Error : Type := mkError {
  message : option string;
  toString : string
}.

(** [e.message ?? e.toString()] *)
Definition error_text (e : Error) : string :=
  match message e with
  | Some m => m
  | None => toString e
  end.

(** Numbers.  A finite double is a rational, and every operation the
    utilities apply to one is modelled by the exact rational operation; the
    three non-finite classes are kept apart.  On integers of magnitude below
    2^53, and for multiplication or division by a power of two short of
    overflow and underflow, the double operation is exact and agrees with the
    model; elsewhere the model is the unrounded value.  The two zeros are not
    told apart. *)
Inductive number : Type :=
| Fin (q : Q)
| NaN
| Infinity (negative : bool).

(** Results of [Math.floor]: integer valued, or one of the non-finite
    classes. *)
Inductive integral : Type :=
| Int (z : Z)
| IntNaN
| IntInfinity (negative : bool).

Definition of_integral (i : integral) : number :=
  match i with
  | Int z => Fin (inject_Z z)
  | IntNaN => NaN
  | IntInfinity s => Infinity s
  end.

Definition Qlt_bool (x y : Q) : bool := negb (Qle_bool y x).
Definition Qneg_bool (x : Q) : bool := Qlt_bool x 0.

(** [a - b] *)
Definition sub (a b : number) : number :=
  match a, b with
  | NaN, _ | _, NaN => NaN
  | Fin x, Fin y => Fin (x - y)
  | Fin _, Infinity s => Infinity (negb s)
  | Infinity s, Fin _ => Infinity s
  | Infinity s, Infinity t => if Bool.eqb s t then NaN else Infinity s
  end.

(** [a * b] *)
Definition mul (a b : number) : number :=
  match a, b with
  | NaN, _ | _, NaN => NaN
  | Fin x, Fin y => Fin (x * y)
  | Fin x, Infinity s | Infinity s, Fin x =>
      if Qeq_bool x 0 then NaN else Infinity (xorb s (Qneg_bool x))
  | Infinity s, Infinity t => Infinity (xorb s t)
  end.

(** [a / b] *)
Definition div (a b : number) : number :=
  match a, b with
  | NaN, _ | _, NaN => NaN
  | Fin x, Fin y =>
      if Qeq_bool y 0
      then (if Qeq_bool x 0 then NaN else Infinity (Qneg_bool x))
      else Fin (x / y)
  | Fin _, Infinity _ => Fin 0
  | Infinity s, Fin y => Infinity (xorb s (Qneg_bool y))
  | Infinity _, Infinity _ => NaN
  end.

(** [a < b]: false as soon as one side is [NaN]. *)
Definition lt (a b : number) : bool :=
  match a, b with
  | NaN, _ | _, NaN => false
  | Fin x, Fin y => Qlt_bool x y
  | Fin _, Infinity s => negb s
  | Infinity s, Fin _ => s
  | Infinity s, Infinity t => s && negb t
  end.

(** [a === b] *)
Definition strict_eq (a b : number) : bool :=
  match a, b with
  | Fin x, Fin y => Qeq_bool x y
  | Infinity s, Infinity t => Bool.eqb s t
  | _, _ => false
  end.

Definition Math_abs (a : number) : number :=
  match a with
  | Fin x => Fin (Qabs x)
  | NaN => NaN
  | Infinity _ => Infinity false
  end.

Definition Math_floor (a : number) : integral :=
  match a with
  | Fin x => Int (Qfloor x)
  | NaN => IntNaN
  | Infinity s => IntInfinity s
  end.

(** Integer logarithm: the number of times [n] can be divided by the base
    [b] before it drops below [b], that is the largest [i] with
    [b ^ i <= n], for [1 <= n] and [2 <= b]. *)
Fixpoint ilog_fuel (fuel : nat) (b n : Z) : Z :=
  match fuel with
  | O => 0
  | S fuel' => if n <? b then 0 else 1 + ilog_fuel fuel' b (n / b)
  end.

Definition ilog (b n : Z) : Z := ilog_fuel (S (Z.to_nat (Z.log2 n))) b n.

(** The floor of the base-[b] logarithm of a positive rational: the [i]
    with [b ^ i <= q < b ^ (i + 1)]. *)
Definition floor_log (b : Z) (q : Q) : Z :=
  if Qle_bool 1 q
  then ilog b (Qfloor q)
  else - (1 + ilog b (Qceiling (/ q) - 1)).

(** [Math.floor(Math.log(x) / Math.log(k))] for an integer base [k > 1].
    [Math.log] is [NaN] below zero, [-Infinity] at zero and [+Infinity] at
    [+Infinity]; dividing by the positive [Math.log(k)] and flooring keeps
    these classes.  On a positive finite [x] the quotient of the two
    logarithms is taken exactly (see the note on [number]): an engine, which
    rounds both logarithms and their quotient, can return the next integer up
    when [x] lies within rounding distance below a power of [k]. *)
Definition Math_floor_log_quot (x : number) (k : Z) : integral :=
  match x with
  | NaN => IntNaN
  | Infinity true => IntNaN
  | Infinity false => IntInfinity false
  | Fin q =>
      if Qneg_bool q then IntNaN
      else if Qeq_bool q 0 then IntInfinity true
      else Int (floor_log k q)
  end.

(** [Math.pow(k, i)] for a base [k > 1] and an exponent that came out of
    [Math.floor]. *)
Definition Math_pow (k : Z) (i : integral) : number :=
  match i with
  | Int z => Fin (inject_Z k ^ z)
  | IntNaN => NaN
  | IntInfinity false => Infinity false
  | IntInfinity true => Fin 0
  end.

(** [a[i]]: [undefined] ([None]) unless [i] is an index of the array. *)
Definition index {A : Type} (a : list A) (i : integral) : option A :=
  match i with
  | Int z => if z <? 0 then None else a !! Z.to_nat z
  | _ => None
  end.

(** String concatenation with a possibly undefined string operand. *)
Definition string_or_undefined (o : option string) : string :=
  match o with
  | Some s => s
  | None => "undefined"
  end.

(** *** Numbers to strings and back *)

(** Outcome of an operation that can throw a [RangeError], or whose string
    depends on the binary rounding of doubles, which exact rationals do not
    carry ([Inexact]). *)
Inductive result (A : Type) : Type :=
| Value (a : A)
| RangeError
| Inexact.
Arguments Value {A} a.
Arguments RangeError {A}.
Arguments Inexact {A}.

#[global] Instance result_ret : MRet result := fun A a => Value a.
#[global] Instance result_bind : MBind result := fun A B f r =>
  match r with
  | Value a => f a
  | RangeError => RangeError
  | Inexact => Inexact
  end.

Fixpoint zeros (n : nat) : string :=
  match n with
  | O => EmptyString
  | S n' => String "0"%char (zeros n')
  end.

(** The decimal numeral of [n / 10 ^ f] for a natural [n], with exactly
    [f] fraction digits: the digits of [n] with a point before the last [f]
    of them, that is the numeral of the quotient of [n] by [10 ^ f], a point,
    and the remainder written on [f] digits. *)
Definition decimal_numeral (n : Z) (f : nat) : string :=
  match f with
  | O => pretty n
  | _ =>
      let b := pretty (n mod 10 ^ Z.of_nat f) in
      pretty (n / 10 ^ Z.of_nat f) +:+ "." +:+ zeros (f - String.length b) +:+ b
  end.

(** [x.toFixed(f)]: a [RangeError] outside 0..100 comes first; a non-finite
    [x] prints its name; otherwise the integer [n] nearest to [x * 10 ^ f]
    (the larger one on a tie) is printed with [f] fraction digits.  From
    10^21 on the method hands over to the general number printing, in
    exponent notation. *)
Definition toFixed (x : number) (f : Z) : result string :=
  if (f <? 0) || (100 <? f) then RangeError else
  match x with
  | NaN => Value "NaN"
  | Infinity false => Value "Infinity"
  | Infinity true => Value "-Infinity"
  | Fin q =>
      let s := if Qneg_bool q then "-" else EmptyString in
      let x := Qabs q in
      if Qle_bool (inject_Z (10 ^ 21)) x then Inexact
      else
        let n := Qfloor (x * inject_Z (10 ^ f) + (1 # 2)) in
        Value (s +:+ decimal_numeral n (Z.to_nat f))
  end.

(** The least [k], among the first [fuel] candidates from [k] on, that makes
    [x * 10 ^ k] an integer. *)
Fixpoint decimal_scale (fuel : nat) (k : nat) (x : Q) : option nat :=
  match fuel with
  | O => None
  | S fuel' =>
      let y := (x * inject_Z (10 ^ Z.of_nat k))%Q in
      if Qeq_bool y (inject_Z (Qfloor y)) then Some k
      else decimal_scale fuel' (S k) x
  end.

(** The string of a number, as [+] with a string operand takes it.  A
    finite value between 10^-6 and 10^21 that is a decimal of at most 100
    fraction digits prints as that decimal without trailing zeros, which is
    what an engine prints for the double nearest to a decimal of at most 15
    significant digits; the other finite values are printed from their
    binary expansion and are left [Inexact]. *)
Definition Number_toString (x : number) : result string :=
  match x with
  | NaN => Value "NaN"
  | Infinity false => Value "Infinity"
  | Infinity true => Value "-Infinity"
  | Fin q =>
      if Qeq_bool q 0 then Value "0" else
      let s := if Qneg_bool q then "-" else EmptyString in
      let x := Qabs q in
      if Qle_bool (inject_Z (10 ^ 21)) x || Qlt_bool x (1 # 1000000) then Inexact
      else
        match decimal_scale 101 0 x with
        | Some k =>
            Value (s +:+ decimal_numeral (Qfloor (x * inject_Z (10 ^ Z.of_nat k))) k)
        | None => Inexact
        end
  end.

Definition is_digit (c : Ascii.ascii) : bool :=
  let n := nat_of_ascii c in (48 <=? n)%nat && (n <=? 57)%nat.

Definition is_space (c : Ascii.ascii) : bool :=
  let n := nat_of_ascii c in
  ((9 <=? n)%nat && (n <=? 13)%nat) || (n =? 32)%nat.

Fixpoint skip_spaces (s : string) : string :=
  match s with
  | String c s' => if is_space c then skip_spaces s' else s
  | EmptyString => s
  end.

(** The digits at the head of [s], read as a natural number that continues
    [acc]; returns the value, how many digits were read and the rest. *)
Fixpoint read_digits (s : string) (acc : Z) (count : nat) : Z * nat * string :=
  match s with
  | String c s' =>
      if is_digit c
      then read_digits s' (10 * acc + (Z.of_nat (nat_of_ascii c) - 48)) (S count)
      else (acc, count, s)
  | EmptyString => (acc, count, s)
  end.

Definition read_sign (s : string) : bool * string :=
  match s with
  | String "-"%char s' => (true, s')
  | String "+"%char s' => (false, s')
  | _ => (false, s)
  end.

(** The optional exponent part: [e] or [E], an optional sign and at least
    one digit; anything else is no exponent. *)
Definition read_exponent (s : string) : Z :=
  match s with
  | String c s' =>
      if (c =? "e")%char || (c =? "E")%char then
        let '(neg, s'') := read_sign s' in
        let '(e, count, _) := read_digits s'' 0 O in
        match count with
        | O => 0
        | _ => if neg then - e else e
        end
      else 0
  | EmptyString => 0
  end.

(** [parseFloat(s)]: leading white space is skipped, then the longest
    prefix that is a decimal literal is read (sign, [Infinity] or digits with
    an optional fraction and exponent); [NaN] when there is none.  The
    literal is read exactly (see the note on [number]). *)
Definition parseFloat (s : string) : number :=
  let '(neg, s) := read_sign (skip_spaces s) in
  if String.prefix "Infinity" s then Infinity neg else
  let '(ip, ni, s) := read_digits s 0 O in
  let '(fp, nf, s) :=
    match s with
    | String "."%char s' => read_digits s' ip O
    | _ => (ip, O, s)
    end in
  match ni, nf with
  | O, O => NaN
  | _, _ =>
      let e := read_exponent s in
      let v := (inject_Z fp * inject_Z 10 ^ (e - Z.of_nat nf))%Q in
      Fin (if neg then - v else v)%Q
  end.

End JS.

(** ** Utilities (the functions that follow the link panel in its file)

    The arithmetic reading: every operation is the one of the rationals, and
    nothing is rounded.  [Binary64] below is the reading of an engine. *)

Module Utils.
Import JS.

(** [Date.now()] is the first argument. *)
Definition convertTimestampToMs (now : Z) (timestamp : number) : number :=
  let now := Fin (inject_Z now) in
  if lt (Math_abs (sub now timestamp))
        (Math_abs (sub now (mul timestamp (Fin (inject_Z 1000)))))
  then timestamp
  else of_integral (Math_floor (mul timestamp (Fin (inject_Z 1000)))).

Definition sizes : list string :=
  ["Bytes"; "KB"; "MB"; "GB"; "TB"; "PB"; "EB"; "ZB"; "YB"].

(** The unit index [i] that [formatBytes] computes for a non-zero input. *)
Definition unit_index (bytes : number) : integral :=
  Math_floor_log_quot bytes 1024.

(** [formatBytes(bytes, decimals = 2)]; a missing second argument is
    [None].  [decimals] is an integer. *)
Definition formatBytes (bytes : number) (decimals : option Z) : result string :=
  let decimals := default 2 decimals in
  if strict_eq bytes (Fin 0) then Value "0 Bytes" else
  let k := 1024 in
  let dm := if decimals <? 0 then 0 else decimals in
  let i := Math_floor_log_quot bytes k in
  fixed ← toFixed (div bytes (Math_pow k i)) dm;
  mantissa ← Number_toString (parseFloat fixed);
  mret (mantissa +:+ " " +:+ string_or_undefined (index sizes i)).

End Utils.

(** ** The utilities as an engine evaluates them

    The operations of [JS] compute in the rationals; [Utils] is the
    arithmetic reading of the two functions.  An engine keeps, after every
    operation, the binary64 number nearest to the result.  This module adds
    that rounding, reads and prints numbers the way ECMAScript lays down, and
    takes the one function the language leaves to the implementation,
    [Math.log], from the engine. *)

Module Binary64.
Import JS.

(** The integer nearest to [x], the even one of two equally near. *)
Definition round_half_even (x : Q) : Z :=
  let n := Qfloor x in
  match (x - inject_Z n ?= 1 # 2)%Q with
  | Lt => n
  | Gt => n + 1
  | Eq => if Z.even n then n else n + 1
  end.

(** The binary64 number nearest to [q] (ties to the even significand): 53
    significant bits for a magnitude from 2^-1022 on, multiples of 2^-1074
    below, [Infinity] when the rounded magnitude reaches 2^1024.  The result
    is kept in lowest terms.  The two zeros are not told apart. *)
Definition fl (q : Q) : number :=
  if Qeq_bool q 0 then Fin 0 else
  let a := Qabs q in
  let e := Z.max (floor_log 2 a) (-1022) in
  let ulp := (inject_Z 2 ^ (e - 52))%Q in
  let v := (inject_Z (round_half_even (a / ulp)) * ulp)%Q in
  if Qle_bool (inject_Z 2 ^ 1024) v then Infinity (Qneg_bool q)
  else Fin (Qred (if Qneg_bool q then - v else v)).

Definition round (x : number) : number :=
  match x with
  | Fin q => fl q
  | _ => x
  end.

(** [q] is a binary64 number. *)
Definition binary64 (q : Q) : bool := strict_eq (fl q) (Fin q).

(** [a - b], [a * b], [a / b] *)
Definition sub (a b : number) : number := round (JS.sub a b).
Definition mul (a b : number) : number := round (JS.mul a b).
Definition div (a b : number) : number := round (JS.div a b).

(** [Math.pow(k, i)] for a base [k > 1] and an exponent that came out of
    [Math.floor]: the power, rounded.  For the base 1024 every power that is
    a binary64 number is returned as it is, the smaller ones are zero (from
    1024^-108 down) and the larger ones [Infinity]. *)
Definition Math_pow (k : Z) (i : integral) : number := round (JS.Math_pow k i).

(** What an engine contributes: its approximation of the natural logarithm
    of a positive finite number other than 1. *)
Record Engine : Type := mkEngine {
  ln : Q -> number
}.

(** [Math.log(x)]: the values the language fixes, and the engine's
    elsewhere. *)
Definition Math_log (eng : Engine) (x : number) : number :=
  match x with
  | NaN => NaN
  | Infinity true => NaN
  | Infinity false => Infinity false
  | Fin q =>
      if Qneg_bool q then NaN
      else if Qeq_bool q 0 then Infinity true
      else if Qeq_bool q 1 then Fin 0
      else ln eng q
  end.

(** The engine's logarithm at [q] is finite, has the sign of the true
    logarithm and a magnitude from 2^-60 up to 2^10.  (The true logarithm of
    a binary64 number other than 1 has a magnitude between 2^-53 and 745.) *)
Definition log_sound (eng : Engine) (q : Q) : bool :=
  match ln eng q with
  | Fin a =>
      Qle_bool (inject_Z 2 ^ (-60)) (Qabs a) && Qlt_bool (Qabs a) (inject_Z 2 ^ 10)
      && Bool.eqb (Qneg_bool a) (Qlt_bool q 1)
  | _ => false
  end.

(** [parseFloat(s)]: the binary64 number nearest to the literal. *)
Definition parseFloat (s : string) : number := round (JS.parseFloat s).

(** The decimals [c * 10 ^ (n - k)] of [k] digits next to [x] on either
    side; of those that read back as [x], the nearer one (the even one of
    two equally near), as digits and decimal exponent. *)
Definition candidate (x : Q) (n k : Z) : option (Z * Z) :=
  let scale := (inject_Z 10 ^ (n - k))%Q in
  let lo := Qfloor (x / scale) in
  let reads (c : Z) := strict_eq (fl (inject_Z c * scale)) (Fin x) in
  let below := (x - inject_Z lo * scale)%Q in
  let above := (inject_Z (lo + 1) * scale - x)%Q in
  let norm (c : Z) := if c =? 10 ^ k then (10 ^ (k - 1), n + 1) else (c, n) in
  match reads lo, reads (lo + 1) with
  | true, true =>
      match (below ?= above)%Q with
      | Lt => Some (norm lo)
      | Gt => Some (norm (lo + 1))
      | Eq => Some (norm (if Z.even lo then lo else lo + 1))
      end
  | true, false => Some (norm lo)
  | false, true => Some (norm (lo + 1))
  | false, false => None
  end.

(** The shortest decimal that reads back as [x]: its digits [s], its decimal
    exponent [n] and its number of digits [k], so that [x] is nearest to
    [s * 10 ^ (n - k)].  Seventeen digits always suffice. *)
Fixpoint shortest (fuel : nat) (x : Q) (n k : Z) : Z * Z * Z :=
  match fuel with
  | O => (Qfloor (x / inject_Z 10 ^ (n - k)), n, k)
  | S fuel' =>
      match candidate x n k with
      | Some (s, n') => (s, n', k)
      | None => shortest fuel' x n (k + 1)
      end
  end.

Definition exponent_part (n : Z) : string :=
  "e" +:+ (if n - 1 <? 0 then "-" else "+") +:+ pretty (Z.abs (n - 1)).

(** The layout of [k] digits [s] with the decimal exponent [n]: plain up to
    21 integer digits and down to 6 leading zeros, exponent notation
    elsewhere. *)
Definition digits_string (s n k : Z) : string :=
  let d := pretty s in
  if (k <=? n) && (n <=? 21) then d +:+ zeros (Z.to_nat (n - k))
  else if (0 <? n) && (n <=? 21) then
    String.substring 0 (Z.to_nat n) d +:+ "." +:+
    String.substring (Z.to_nat n) (Z.to_nat (k - n)) d
  else if (-6 <? n) && (n <=? 0) then "0." +:+ zeros (Z.to_nat (- n)) +:+ d
  else if k =? 1 then d +:+ exponent_part n
  else
    String.substring 0 1 d +:+ "." +:+
    String.substring 1 (Z.to_nat (k - 1)) d +:+ exponent_part n.

(** The string of a number, as [+] with a string operand takes it. *)
Definition Number_toString (x : number) : string :=
  match x with
  | NaN => "NaN"
  | Infinity false => "Infinity"
  | Infinity true => "-Infinity"
  | Fin q =>
      if Qeq_bool q 0 then "0" else
      let a := Qabs q in
      let '(s, n, k) := shortest 17 a (floor_log 10 a + 1) 1 in
      (if Qneg_bool q then "-" else EmptyString) +:+ digits_string s n k
  end.

(** [x.toFixed(f)]: a [RangeError] outside 0..100 comes first; a non-finite
    [x], or one from 10^21 on, prints as a number; otherwise the integer [n]
    nearest to [x * 10 ^ f] (the larger one on a tie) is printed with [f]
    fraction digits. *)
Definition toFixed (x : number) (f : Z) : result string :=
  if (f <? 0) || (100 <? f) then RangeError else
  match x with
  | Fin q =>
      if Qle_bool (inject_Z (10 ^ 21)) (Qabs q) then Value (Number_toString x)
      else
        let n := Qfloor (Qabs q * inject_Z (10 ^ f) + (1 # 2)) in
        Value ((if Qneg_bool q then "-" else EmptyString)
               +:+ decimal_numeral n (Z.to_nat f))
  | _ => Value (Number_toString x)
  end.

(** [Date.now()], a whole number of milliseconds, is the first argument. *)
Definition convertTimestampToMs (now : Z) (timestamp : number) : number :=
  let now := Fin (inject_Z now) in
  if lt (Math_abs (sub now timestamp))
        (Math_abs (sub now (mul timestamp (Fin (inject_Z 1000)))))
  then timestamp
  else of_integral (Math_floor (mul timestamp (Fin (inject_Z 1000)))).

(** The unit index [i] that [formatBytes] computes for a non-zero input. *)
Definition unit_index (eng : Engine) (bytes : number) : integral :=
  Math_floor (div (Math_log eng bytes) (Math_log eng (Fin (inject_Z 1024)))).

(** [formatBytes(bytes, decimals = 2)]; a missing second argument is
    [None].  [decimals] is an integer. *)
Definition formatBytes (eng : Engine) (bytes : number) (decimals : option Z)
    : result string :=
  let decimals := default 2 decimals in
  if strict_eq bytes (Fin 0) then Value "0 Bytes" else
  let k := 1024 in
  let dm := if decimals <? 0 then 0 else decimals in
  let i := Math_floor (div (Math_log eng bytes) (Math_log eng (Fin (inject_Z k)))) in
  fixed ← toFixed (div bytes (Math_pow k i)) dm;
  mret (Number_toString (parseFloat fixed) +:+ " " +:+
        string_or_undefined (index Utils.sizes i)).

End Binary64.

(** An engine for the examples: the logarithms a V8 engine returns at the
    inputs the examples use (each is the binary64 number nearest to the true
    logarithm); no other input is asked of it. *)
Module EngineSamples.
Import JS Binary64.

Definition logarithms : list (Q * Q) :=
  [ (inject_Z 1024, 7804143460206699 # 1125899906842624);
    (inject_Z 1536, 516291036728351 # 70368744177664);
    (inject_Z 1234567, 3948033004454027 # 281474976710656);
    (inject_Z (2 ^ 50 - 1), 4877589662629187 # 140737488355328);
    (inject_Z (2 ^ 90 - 2 ^ 37), 1097457674091567 # 17592186044416);
    (inject_Z (2 ^ 105), 2560734572880323 # 35184372088832);
    (1 # 2, -6243314768165359 # 9007199254740992);
    (inject_Z (2 ^ 53 - 1) / inject_Z (2 ^ 63),
     -7804143460206699 # 1125899906842624);
    (inject_Z 2 ^ (-1074), -6548164122079683 # 8796093022208) ]%Q.

Definition engine : Engine :=
  mkEngine (fun q =>
    match List.find (fun p => Qeq_bool (fst p) q) logarithms with
    | Some p => Fin (snd p)
    | None => NaN
    end).

End EngineSamples.

(** ** The stores, the outside world and the handler monad *)

Module App.
Import JS.

(** A sync pair of the desktop configuration: the two fields the handlers
    read, and the remaining ones, which every spread carries over as they
    are. *)
Record SyncPair : Type := mkSyncPair {
  uuid : string;
  paused : bool;
  pairRest : string
}.

Record SyncConfig : Type := mkSyncConfig {
  syncPairs : list SyncPair;
  syncConfigRest : string
}.

Record DesktopConfig : Type := mkDesktopConfig {
  syncConfig : SyncConfig;
  desktopConfigRest : string
}.

(** An item of the drive listing. *)
Record DriveCloudItem : Type := mkItem {
  itemUUID : string;
  name : string;
  selected : bool;
  itemRest : string
}.

(** The answer of the directory link status query: no link, or a link with
    its settings. *)
Inductive DirLinkStatusResponse : Type :=
| NoLink
| Link (linkUUID key expirationText : string) (downloadBtn : Z)
       (password : option string).

(** [status.exists] *)
Definition exists_ (status : DirLinkStatusResponse) : bool :=
  match status with
  | NoLink => false
  | Link _ _ _ _ _ => true
  end.

(** [status.uuid], read only behind a test of [status.exists] *)
Definition statusUUID (status : DirLinkStatusResponse) : string :=
  match status with
  | NoLink => "undefined"
  | Link u _ _ _ _ => u
  end.

(** The callback handed to [setTimeout] by [toggleStatus]. *)
Inductive Callback : Type :=
| SetSaving (b : bool).

(** Everything the handlers read or write: the desktop configuration, the
    syncs store, the drive items store, the directory name cache, the current
    location, and the state of the public-link dialog of one item (the status
    query, the dialog's own [status], the [open] and [saving] flags of its
    parent, the staged edits and the pending timers). *)
Record World : Type := mkWorld {
  desktopConfig : DesktopConfig;
  selectedSync : option SyncPair;
  changing : bool;
  items : list DriveCloudItem;
  directoryUUIDToNameCache : gmap string string;
  location : string;
  queryData : option DirLinkStatusResponse;
  status : option DirLinkStatusResponse;
  open : bool;
  saving : bool;
  stagedPassword : string;
  stagedExpiration : string;
  stagedDownloadBtn : bool;
  timers : list (Z * Callback)
}.

(** Requests to the desktop API, to the worker and to the status query. *)
Inductive Call : Type :=
| SyncUpdatePaused (uuid : string) (paused : bool)
| SyncResetCache (uuid : string)
| SyncUpdateRemoved (uuid : string) (removed : bool)
| CreateDirectory (name parent : string)
| EnablePublicLink (type uuid : string)
| DisablePublicLink (type itemUUID linkUUID : string)
| EditPublicLink (type itemUUID linkUUID : string) (enableDownload : bool)
    (expiration : string) (password : option string)
| Refetch (uuid : string).

(** What a run of a handler shows to the outside, in order; a request is
    recorded with the error it is rejected with, if any. *)
Inductive Event : Type :=
| Remote (c : Call) (rejection : option Error)
| ConfirmDialog
| InputDialog
| LoadingToast
| ToastDismiss
| ErrorToast (text : string)
| ConsoleError (e : Error)
| Navigate (to : string).

(** [showInputDialog]'s answer. *)
Record InputResponse : Type := mkInputResponse {
  cancelled : bool;
  value : string
}.

(** The outside world of one run: which requests are rejected and with
    what, the item a successful [createDirectory] answers, the data a
    successful refetch brings ([None]: the fetch failed and the query keeps
    its data, [refetch] does not throw for that), what the user answers to
    the dialogs, and the host's [String.prototype.toLowerCase]. *)
Record Env : Type := mkEnv {
  respond : Call -> option Error;
  toLowerCase : string -> string;
  created : string -> string -> DriveCloudItem;
  fetched : option DirLinkStatusResponse;
  showConfirmDialog : bool;
  showInputDialog : InputResponse
}.

(** *** Completions and the handler monad *)

Inductive completion (A : Type) : Type :=
| Normal (a : A)
| Returned
| Thrown (e : Error).
Arguments Normal {A} a.
Arguments Returned {A}.
Arguments Thrown {A} e.

(** A handler step: from a world and the events so far to a completion, a
    world and the events so far.  A handler runs from its call to its end
    with every awaited request answered in turn. *)
Definition M (A : Type) : Type :=
  World -> list Event -> completion A * World * list Event.

#[global] Instance M_ret : MRet M := fun A a w l => (Normal a, w, l).
#[global] Instance M_bind : MBind M := fun A B f m w l =>
  match m w l with
  | (Normal a, w', l') => f a w' l'
  | (Returned, w', l') => (Returned, w', l')
  | (Thrown e, w', l') => (Thrown e, w', l')
  end.

Definition emit (ev : Event) : M unit := fun w l => (Normal tt, w, l ++ [ev]).
Definition modify (f : World -> World) : M unit := fun w l => (Normal tt, f w, l).
Definition return_ : M unit := fun w l => (Returned, w, l).

(** [try { body } catch (e) { handler } finally { final }] *)
Definition try_catch_finally (body : M unit) (handler : Error -> M unit)
    (final : M unit) : M unit := fun w l =>
  let '(c, w, l) := body w l in
  let '(c, w, l) :=
    match c with
    | Thrown e => handler e w l
    | _ => (c, w, l)
    end in
  let '(c', w, l) := final w l in
  match c' with
  | Normal _ => (c, w, l)
  | _ => (c', w, l)
  end.

(** The body of a function: a [return] ends it normally. *)
Definition function (body : M unit) : M unit := fun w l =>
  match body w l with
  | (Returned, w', l') => (Normal tt, w', l')
  | r => r
  end.

(** [await] of a request without a result of interest. *)
Definition await (env : Env) (c : Call) : M unit := fun w l =>
  match respond env c with
  | Some e => (Thrown e, w, l ++ [Remote c (Some e)])
  | None => (Normal tt, w, l ++ [Remote c None])
  end.

(** [await] of a request that answers [v] when it is not rejected. *)
Definition await_value {A : Type} (env : Env) (c : Call) (v : A) : M A :=
  fun w l =>
  match respond env c with
  | Some e => (Thrown e, w, l ++ [Remote c (Some e)])
  | None => (Normal v, w, l ++ [Remote c None])
  end.

(** *** Setters *)

Definition setDesktopConfig (f : DesktopConfig -> DesktopConfig) : M unit :=
  modify (fun w =>
    mkWorld (f (desktopConfig w)) (selectedSync w) (changing w) (items w)
      (directoryUUIDToNameCache w) (location w) (queryData w) (status w)
      (open w) (saving w) (stagedPassword w) (stagedExpiration w)
      (stagedDownloadBtn w) (timers w)).

Definition setSelectedSync (v : option SyncPair) : M unit :=
  modify (fun w =>
    mkWorld (desktopConfig w) v (changing w) (items w)
      (directoryUUIDToNameCache w) (location w) (queryData w) (status w)
      (open w) (saving w) (stagedPassword w) (stagedExpiration w)
      (stagedDownloadBtn w) (timers w)).

Definition setChanging (v : bool) : M unit :=
  modify (fun w =>
    mkWorld (desktopConfig w) (selectedSync w) v (items w)
      (directoryUUIDToNameCache w) (location w) (queryData w) (status w)
      (open w) (saving w) (stagedPassword w) (stagedExpiration w)
      (stagedDownloadBtn w) (timers w)).

Definition setItems (f : list DriveCloudItem -> list DriveCloudItem) : M unit :=
  modify (fun w =>
    mkWorld (desktopConfig w) (selectedSync w) (changing w) (f (items w))
      (directoryUUIDToNameCache w) (location w) (queryData w) (status w)
      (open w) (saving w) (stagedPassword w) (stagedExpiration w)
      (stagedDownloadBtn w) (timers w)).

(** [directoryUUIDToNameCache.set(k, v)] *)
Definition directoryUUIDToNameCache_set (k v : string) : M unit :=
  modify (fun w =>
    mkWorld (desktopConfig w) (selectedSync w) (changing w) (items w)
      (<[k := v]> (directoryUUIDToNameCache w)) (location w) (queryData w)
      (status w) (open w) (saving w) (stagedPassword w) (stagedExpiration w)
      (stagedDownloadBtn w) (timers w)).

Definition setQueryData (v : option DirLinkStatusResponse) : M unit :=
  modify (fun w =>
    mkWorld (desktopConfig w) (selectedSync w) (changing w) (items w)
      (directoryUUIDToNameCache w) (location w) v (status w)
      (open w) (saving w) (stagedPassword w) (stagedExpiration w)
      (stagedDownloadBtn w) (timers w)).

Definition setOpen (v : bool) : M unit :=
  modify (fun w =>
    mkWorld (desktopConfig w) (selectedSync w) (changing w) (items w)
      (directoryUUIDToNameCache w) (location w) (queryData w) (status w)
      v (saving w) (stagedPassword w) (stagedExpiration w)
      (stagedDownloadBtn w) (timers w)).

Definition with_saving (v : bool) (w : World) : World :=
  mkWorld (desktopConfig w) (selectedSync w) (changing w) (items w)
    (directoryUUIDToNameCache w) (location w) (queryData w) (status w)
    (open w) v (stagedPassword w) (stagedExpiration w)
    (stagedDownloadBtn w) (timers w).

Definition setSaving (v : bool) : M unit := modify (with_saving v).

(** [setTimeout(callback, ms)]: the callback is queued, not run. *)
Definition with_timers (v : list (Z * Callback)) (w : World) : World :=
  mkWorld (desktopConfig w) (selectedSync w) (changing w) (items w)
    (directoryUUIDToNameCache w) (location w) (queryData w) (status w)
    (open w) (saving w) (stagedPassword w) (stagedExpiration w)
    (stagedDownloadBtn w) v.

Definition setTimeout (callback : Callback) (ms : Z) : M unit :=
  modify (fun w => with_timers (timers w ++ [(ms, callback)]) w).

(** A queued callback runs. *)
Definition fire (callback : Callback) (w : World) : World :=
  match callback with
  | SetSaving b => with_saving b w
  end.

(** The event loop once the handler is done and the delays have passed:
    the queued callbacks run in turn and leave the queue. *)
Definition run_timers (w : World) : World :=
  foldl (fun w' t => fire t.2 w') (with_timers [] w) (timers w).

(** *** Feedback *)

Definition loadingToast : M unit := emit LoadingToast.
Definition toast_dismiss : M unit := emit ToastDismiss.
Definition errorToast (text : string) : M unit := emit (ErrorToast text).
Definition console_error (e : Error) : M unit := emit (ConsoleError e).
Definition navigate (to : string) : M unit := emit (Navigate to).

(** The [catch] block that every handler has. *)
Definition report (e : Error) : M unit :=
  console_error e ;; errorToast (error_text e).

(** [s.includes(sub)] *)
Fixpoint includes (s sub : string) : bool :=
  String.prefix sub s ||
  match s with
  | String _ s' => includes s' sub
  | EmptyString => false
  end.

End App.

(** ** The sync context menu *)

Module SyncContextMenu.
Import JS App.

(** The memoised [syncConfig]: the first pair of the configuration with the
    uuid of [sync], or [null]. *)
Definition syncConfig_of (sync : SyncPair) (desktopConfig : DesktopConfig)
    : option SyncPair :=
  head (filter (fun pair => uuid pair = uuid sync)
               (syncPairs (App.syncConfig desktopConfig))).

Definition togglePause (env : Env) (sync : SyncPair)
    (syncConfig : option SyncPair) : M unit :=
  function (
    match syncConfig with
    | None => return_
    | Some syncConfig =>
        setChanging true ;;
        loadingToast ;;
        try_catch_finally
          (let paused := negb (paused syncConfig) in
           await env (SyncUpdatePaused (uuid sync) paused) ;;
           await env (SyncResetCache (uuid sync)) ;;
           setDesktopConfig (fun prev =>
             mkDesktopConfig
               (mkSyncConfig
                  (map (fun pair =>
                          if decide (uuid pair = uuid sync)
                          then mkSyncPair (uuid pair) paused (pairRest pair)
                          else pair)
                       (syncPairs (App.syncConfig prev)))
                  (syncConfigRest (App.syncConfig prev)))
               (desktopConfigRest prev)))
          report
          (setChanging false ;; toast_dismiss)
    end).

Definition deleteSync (env : Env) (sync : SyncPair) : M unit :=
  function (
    emit ConfirmDialog ;;
    (if negb (showConfirmDialog env) then return_ else mret tt) ;;
    setChanging true ;;
    loadingToast ;;
    try_catch_finally
      (await env (SyncUpdateRemoved (uuid sync) true) ;;
       setSelectedSync None ;;
       setDesktopConfig (fun prev =>
         mkDesktopConfig
           (mkSyncConfig
              (filter (fun pair => uuid pair ≠ uuid sync)
                      (syncPairs (App.syncConfig prev)))
              (syncConfigRest (App.syncConfig prev)))
           (desktopConfigRest prev)) ;;
       navigate "/syncs")
      report
      (setChanging false ;; toast_dismiss)).

(** The two listeners on the event bridge; the effect installs them whether
    or not [syncConfig] is there. *)
Definition deleteSyncListener (env : Env) (sync : SyncPair) (uuid' : string)
    : M unit :=
  function (
    (if decide (uuid' ≠ uuid sync) then return_ else mret tt) ;;
    deleteSync env sync).

Definition toggleSyncPauseListener (env : Env) (sync : SyncPair)
    (syncConfig : option SyncPair) (uuid' : string) : M unit :=
  function (
    (if decide (uuid' ≠ uuid sync) then return_ else mret tt) ;;
    togglePause env sync syncConfig).

End SyncContextMenu.

(** ** The drive list context menu *)

Module DriveListContextMenu.
Import JS App.

Definition createDirectory (env : Env) (parent : string) : M unit :=
  function (
    emit InputDialog ;;
    let inputResponse := showInputDialog env in
    (if cancelled inputResponse then return_ else mret tt) ;;
    loadingToast ;;
    try_catch_finally
      (item ← await_value env (CreateDirectory (value inputResponse) parent)
                (created env (value inputResponse) parent) ;
       directoryUUIDToNameCache_set (itemUUID item) (value inputResponse) ;;
       setItems (fun prev =>
         filter (fun prevItem =>
                   itemUUID prevItem ≠ itemUUID item
                   ∧ toLowerCase env (name prevItem) ≠ toLowerCase env (name item))
                prev
         ++ [item]))
      report
      toast_dismiss).

End DriveListContextMenu.

(** ** The directory public-link panel *)

Module PublicLinkDirectory.
Import JS App.

(** [query.refetch()] *)
Definition refetch (env : Env) (item : DriveCloudItem) : M unit :=
  await env (Refetch (itemUUID item)) ;;
  match fetched env with
  | Some data => setQueryData (Some data)
  | None => mret tt
  end.

Definition toggleStatus (env : Env) (item : DriveCloudItem) (location : string)
    (status : option DirLinkStatusResponse) (saving : bool) (checked : bool)
    : M unit :=
  function (
    match status with
    | None => return_
    | Some status =>
        (if saving then return_ else mret tt) ;;
        setSaving true ;;
        loadingToast ;;
        try_catch_finally
          ((if checked
            then await env (EnablePublicLink "directory" (itemUUID item))
            else
              (if negb (exists_ status) then return_ else mret tt) ;;
              await env (DisablePublicLink "directory" (itemUUID item)
                           (statusUUID status))) ;;
           refetch env item ;;
           if includes location "links"
           then
             setItems (fun prev =>
               filter (fun prevItem => itemUUID prevItem ≠ itemUUID item) prev) ;;
             setOpen false
           else mret tt)
          report
          (toast_dismiss ;; setTimeout (SetSaving false) 100)
    end).

Definition save (env : Env) (item : DriveCloudItem)
    (status : option DirLinkStatusResponse) (saving : bool)
    (password expiration : string) (downloadBtn : bool) : M unit :=
  function (
    match status with
    | None => return_
    | Some status =>
        (if negb (exists_ status) || saving then return_ else mret tt) ;;
        setSaving true ;;
        loadingToast ;;
        try_catch_finally
          (await env
             (EditPublicLink "directory" (itemUUID item) (statusUUID status)
                downloadBtn expiration
                (if (0 <? String.length password)%nat
                 then Some password else None)) ;;
           refetch env item)
          report
          (toast_dismiss ;; setSaving false)
    end).

End PublicLinkDirectory.

(** ** Actions *)

Module Actions.
Import JS App.

(** A user gesture on a component that is rendered from the current world:
    the handler runs with the values its closure captured at that render. *)
Inductive Action : Type :=
| DoTogglePause (sync : SyncPair)
| DoDeleteSync (sync : SyncPair)
| DoCreateDirectory (parent : string)
| DoToggleStatus (item : DriveCloudItem) (checked : bool)
| DoSave (item : DriveCloudItem).

Definition perform (env : Env) (a : Action) : M unit := fun w =>
  match a with
  | DoTogglePause sync =>
      SyncContextMenu.togglePause env sync
        (SyncContextMenu.syncConfig_of sync (desktopConfig w)) w
  | DoDeleteSync sync => SyncContextMenu.deleteSync env sync w
  | DoCreateDirectory parent => DriveListContextMenu.createDirectory env parent w
  | DoToggleStatus item checked =>
      PublicLinkDirectory.toggleStatus env item (location w) (status w)
        (saving w) checked w
  | DoSave item =>
      PublicLinkDirectory.save env item (status w) (saving w)
        (stagedPassword w) (stagedExpiration w) (stagedDownloadBtn w) w
  end.

Definition run (env : Env) (a : Action) (w : World)
    : completion unit * World * list Event :=
  perform env a w [].

(** The local mirror of the remote state, and the dialog's [open] flag:
    the world without the busy flags [changing] and [saving] and the timer
    that resets the latter. *)
Definition mirror (w : World) :=
  (desktopConfig w, selectedSync w, items w, directoryUUIDToNameCache w,
   queryData w, status w, open w).

Definition error_toasts (l : list Event) : list string :=
  omap (fun ev => match ev with ErrorToast text => Some text | _ => None end) l.

Definition remote_calls (l : list Event) : list Call :=
  omap (fun ev => match ev with Remote c _ => Some c | _ => None end) l.

(** The guards at the head of the handlers, as conditions on the world the
    component was rendered from: [togglePause] returns at once without a
    loaded [syncConfig]; [toggleStatus] without a loaded [status] or while
    [saving]; [save] also when no link exists.  [deleteSync] and
    [createDirectory] have no such guard. *)
Definition guarded (a : Action) (w : World) : Prop :=
  match a with
  | DoTogglePause sync =>
      SyncContextMenu.syncConfig_of sync (desktopConfig w) = None
  | DoToggleStatus _ _ => status w = None \/ saving w = true
  | DoSave _ => status w = None \/ status w = Some NoLink \/ saving w = true
  | DoDeleteSync _ | DoCreateDirectory _ => False
  end.

End Actions.

(** ** Sample worlds *)

Module Samples.
Import JS App.

(** [String.prototype.toLowerCase] on the letters A to Z. *)
Definition lower_char (c : Ascii.ascii) : Ascii.ascii :=
  let n := nat_of_ascii c in
  if (65 <=? n)%nat && (n <=? 90)%nat then ascii_of_nat (n + 32) else c.

Fixpoint ascii_toLowerCase (s : string) : string :=
  match s with
  | String c s' => String (lower_char c) (ascii_toLowerCase s')
  | EmptyString => EmptyString
  end.

Definition boom : Error := mkError (Some "boom") "Error: boom".
Definition bare : Error := mkError None "rejected".

Definition docs_pair : SyncPair := mkSyncPair "s-1" false "Documents".
Definition music_pair : SyncPair := mkSyncPair "s-2" true "Music".
Definition photos_pair : SyncPair := mkSyncPair "s-3" false "Photos".

Definition report_item : DriveCloudItem := mkItem "d-1" "Reports" false "dir".
Definition notes_item : DriveCloudItem := mkItem "d-2" "notes" false "dir".
Definition fresh_item (n parent : string) : DriveCloudItem :=
  mkItem "d-9" n false parent.

Definition a_link : DirLinkStatusResponse := Link "l-1" "key" "never" 1 None.

(** Two syncs configured, two items listed under a "links" location, the
    link panel of an item loaded with an existing link. *)
Definition world : World :=
  mkWorld (mkDesktopConfig (mkSyncConfig [docs_pair; music_pair] "sync") "desktop")
    (Some music_pair) false [report_item; notes_item] ∅ "/drive/links"
    (Some a_link) (Some a_link) true false EmptyString "never" true [].

(** The same world in a plain drive location. *)
Definition drive_world : World :=
  mkWorld (desktopConfig world) (selectedSync world) false (items world) ∅
    "/drive/root" (Some a_link) (Some a_link) true false EmptyString "never"
    true [].

(** The same world while an action of the sync menu is running. *)
Definition busy_world : World :=
  mkWorld (desktopConfig world) (selectedSync world) true (items world) ∅
    "/drive/links" (Some a_link) (Some a_link) true false EmptyString "never"
    true [].

(** Every request resolves, the user confirms and types "reports". *)
Definition env_ok : Env :=
  mkEnv (fun _ => None) ascii_toLowerCase fresh_item (Some NoLink) true
    (mkInputResponse false "reports").

(** Every request is rejected. *)
Definition env_rejecting (e : Error) : Env :=
  mkEnv (fun _ => Some e) ascii_toLowerCase fresh_item None true
    (mkInputResponse false "reports").

End Samples.

(** ** The remaining parts of the components *)

(** *** What a run shows *)

Module Trace.
Import JS App Actions.

Definition loading_toasts (l : list Event) : list unit :=
  omap (fun ev => match ev with LoadingToast => Some tt | _ => None end) l.

Definition toast_dismissals (l : list Event) : list unit :=
  omap (fun ev => match ev with ToastDismiss => Some tt | _ => None end) l.

(** The answers to the requests of a run, in order ([None]: resolved). *)
Definition responses (l : list Event) : list (option Error) :=
  omap (fun ev => match ev with Remote _ r => Some r | _ => None end) l.

(** The prompt that opens an action, and the answer that ends it there:
    [deleteSync] returns when the confirmation is not given, [createDirectory]
    when the input is cancelled. *)
Definition declined (env : Env) (a : Action) : Prop :=
  match a with
  | DoDeleteSync _ => showConfirmDialog env = false
  | DoCreateDirectory _ => cancelled (showInputDialog env) = true
  | _ => False
  end.

Definition prompt (a : Action) : list Event :=
  match a with
  | DoDeleteSync _ => [ConfirmDialog]
  | DoCreateDirectory _ => [InputDialog]
  | _ => []
  end.

End Trace.

(** *** The sync context menu: what is rendered *)

Module SyncContextMenuView.
Import JS App Actions.

(** An entry of the menu: the translation key of its label and what a
    click runs. *)
Record MenuEntry : Type := mkEntry {
  label : string;
  onClick : Action
}.

(** Nothing is rendered without a loaded [syncConfig]; otherwise the entry
    that resumes a paused sync or pauses a running one, and the delete
    entry. *)
Definition render (sync : SyncPair) (syncConfig : option SyncPair)
    : option (list MenuEntry) :=
  match syncConfig with
  | None => None
  | Some syncConfig =>
      Some [mkEntry (if paused syncConfig
                     then "contextMenus.syncs.resume"
                     else "contextMenus.syncs.pause")
                    (DoTogglePause sync);
            mkEntry "contextMenus.syncs.delete" (DoDeleteSync sync)]
  end.

End SyncContextMenuView.

(** *** The drive list context menu: opening *)

Module DriveListContextMenuOpen.
Import JS App.

(** The [onOpenChange] of the menu. *)
Definition onOpenChange (open : bool) : M unit :=
  if open
  then setItems (fun prev =>
         map (fun prevItem =>
                mkItem (itemUUID prevItem) (name prevItem) false (itemRest prevItem))
             prev)
  else mret tt.

End DriveListContextMenuOpen.

(** *** The public-link panel: staged edits *)

Module PublicLinkDirectoryEdits.
Import JS App.

Definition setPassword (v : string) : M unit :=
  modify (fun w =>
    mkWorld (desktopConfig w) (selectedSync w) (changing w) (items w)
      (directoryUUIDToNameCache w) (location w) (queryData w) (status w)
      (open w) (saving w) v (stagedExpiration w) (stagedDownloadBtn w)
      (timers w)).

Definition setExpiration (v : string) : M unit :=
  modify (fun w =>
    mkWorld (desktopConfig w) (selectedSync w) (changing w) (items w)
      (directoryUUIDToNameCache w) (location w) (queryData w) (status w)
      (open w) (saving w) (stagedPassword w) v (stagedDownloadBtn w)
      (timers w)).

Definition setDownloadBtn (v : bool) : M unit :=
  modify (fun w =>
    mkWorld (desktopConfig w) (selectedSync w) (changing w) (items w)
      (directoryUUIDToNameCache w) (location w) (queryData w) (status w)
      (open w) (saving w) (stagedPassword w) (stagedExpiration w) v
      (timers w)).

Definition toggleDownloadButton (checked : bool) : M unit :=
  function (setDownloadBtn checked).

(** [e.target.value] is the argument. *)
Definition onPasswordChange (value : string) : M unit := setPassword value.

Definition onExpirationChange (exp : string) : M unit := setExpiration exp.

(** The entries of the expiration selector, in order: the value an entry
    hands to [onValueChange] and the text it shows. *)
Definition expirationItems : list (string * string) :=
  [("1h", "1h"); ("6h", "6h"); ("1d", "1d"); ("3d", "3d"); ("7d", "7d");
   ("14d", "14d"); ("14d", "30d"); ("14d", "never")].

(** The user picks the [i]-th entry of the selector. *)
Definition selectExpiration (i : nat) : M unit :=
  match expirationItems !! i with
  | Some (value, _) => onExpirationChange value
  | None => mret tt
  end.

(** The listener of the save event on the bridge runs [save] with what the
    render captured. *)
Definition savePublicLinkListener (env : Env) (item : DriveCloudItem) : M unit :=
  fun w =>
    PublicLinkDirectory.save env item (status w) (saving w) (stagedPassword w)
      (stagedExpiration w) (stagedDownloadBtn w) w.

End PublicLinkDirectoryEdits.

(** *** The public-link panel: the link key and the clipboard *)

Module PublicLinkDirectoryKey.
Import JS App.

(** [status.key], read only behind a test of [status.exists] *)
Definition statusKey (status : DirLinkStatusResponse) : string :=
  match status with
  | NoLink => "undefined"
  | Link _ k _ _ _ => k
  end.

(** What the two handlers show to the outside. *)
Inductive KeyEvent : Type :=
| DecryptDirectoryLinkKey (key : string) (rejection : option Error)
| ClipboardWriteText (text : string) (rejection : option Error)
| SuccessToast (text : string)
| KeyErrorToast (text : string)
| KeyConsoleError (e : Error).

(** The outside of the two handlers: the worker's answer to a decryption,
    whether the clipboard refuses a text, the translation of a key, and the
    constant [PUBLIC_LINK_BASE_URL]. *)
Record KeyEnv : Type := mkKeyEnv {
  decryptDirectoryLinkKey : string -> Error + string;
  writeText : string -> option Error;
  t : string -> string;
  PUBLIC_LINK_BASE_URL : string
}.

(** The handlers' only state is the panel's [decryptedLinkKey]. *)
Definition K (A : Type) : Type :=
  string -> list KeyEvent -> completion A * string * list KeyEvent.

#[global] Instance K_ret : MRet K := fun A a k l => (Normal a, k, l).
#[global] Instance K_bind : MBind K := fun A B f m k l =>
  match m k l with
  | (Normal a, k', l') => f a k' l'
  | (Returned, k', l') => (Returned, k', l')
  | (Thrown e, k', l') => (Thrown e, k', l')
  end.

Definition k_emit (ev : KeyEvent) : K unit := fun k l => (Normal tt, k, l ++ [ev]).
Definition k_return : K unit := fun k l => (Returned, k, l).
Definition setDecryptedLinkKey (v : string) : K unit := fun _ l => (Normal tt, v, l).

(** [try { body } catch (e) { handler }] *)
Definition k_try_catch (body : K unit) (handler : Error -> K unit) : K unit :=
  fun k l =>
  match body k l with
  | (Thrown e, k', l') => handler e k' l'
  | r => r
  end.

Definition k_function (body : K unit) : K unit := fun k l =>
  match body k l with
  | (Returned, k', l') => (Normal tt, k', l')
  | r => r
  end.

Definition k_report (e : Error) : K unit :=
  k_emit (KeyConsoleError e) ;; k_emit (KeyErrorToast (error_text e)).

(** [s.split("/#/d/").join("/#/f/")]: every occurrence of the first
    marker, found from left to right without overlap, becomes the second;
    [skip] counts the characters of an occurrence still to pass over. *)
Fixpoint split_join_go (skip : nat) (s : string) : string :=
  match s with
  | EmptyString => EmptyString
  | String c s' =>
      match skip with
      | S skip' => split_join_go skip' s'
      | O =>
          if String.prefix "/#/d/" s
          then "/#/f/" +:+ split_join_go 4 s'
          else String c (split_join_go 0 s')
      end
  end.

(** The text of the link, as the input shows it and as [copyLink] writes
    it. *)
Definition linkText (env : KeyEnv) (status : DirLinkStatusResponse)
    (decryptedLinkKey : string) : string :=
  split_join_go 0 (PUBLIC_LINK_BASE_URL env) +:+ statusUUID status +:+ "#"
  +:+ decryptedLinkKey.

Definition copyLink (env : KeyEnv) (status : option DirLinkStatusResponse)
    (decryptedLinkKey : string) : K unit :=
  k_function (
    match status with
    | None => k_return
    | Some status =>
        (if negb (exists_ status) || (String.length decryptedLinkKey =? 0)%nat
         then k_return else mret tt) ;;
        k_try_catch
          (let text := linkText env status decryptedLinkKey in
           (fun k l =>
              match writeText env text with
              | Some e => (Thrown e, k, l ++ [ClipboardWriteText text (Some e)])
              | None => (Normal tt, k, l ++ [ClipboardWriteText text None])
              end) ;;
           k_emit (SuccessToast (t env "copiedToClipboard")))
          k_report
    end).

Definition decryptLinkKey (env : KeyEnv) (status : option DirLinkStatusResponse)
    : K unit :=
  k_function (
    match status with
    | None => k_return
    | Some status =>
        (if negb (exists_ status) then k_return else mret tt) ;;
        k_try_catch
          (decryptedKey ←
             (fun k l =>
                match decryptDirectoryLinkKey env (statusKey status) with
                | inl e =>
                    (Thrown e, k,
                     l ++ [DecryptDirectoryLinkKey (statusKey status) (Some e)])
                | inr key =>
                    (Normal key, k,
                     l ++ [DecryptDirectoryLinkKey (statusKey status) None])
                end) ;
           setDecryptedLinkKey decryptedKey)
          k_report
    end).

Definition success_toasts (l : list KeyEvent) : list string :=
  omap (fun ev => match ev with SuccessToast s => Some s | _ => None end) l.

Definition key_error_toasts (l : list KeyEvent) : list string :=
  omap (fun ev => match ev with KeyErrorToast s => Some s | _ => None end) l.

Definition clipboard_writes (l : list KeyEvent) : list string :=
  omap (fun ev => match ev with ClipboardWriteText s _ => Some s | _ => None end) l.

End PublicLinkDirectoryKey.

(** * Properties *)

Import JS Utils App Actions.

(** ** Lists of records with at most one record per identifier *)

Section Lists.
Context {A : Type} (key : A -> string).

(** The first record with a given key splits the list around it. *)
Lemma head_filter_split (k : string) (l : list A) (x : A) :
  head (filter (fun y => key y = k) l) = Some x ->
  exists before after,
    l = before ++ x :: after /\ key x = k /\ Forall (fun y => key y ≠ k) before.
Proof.
  induction l as [|y l IH]; intros Hhd; [discriminate|].
  rewrite filter_cons in Hhd. destruct (decide (key y = k)) as [Hy|Hy].
  - simpl in Hhd. injection Hhd as ->. exists [], l. auto.
  - destruct (IH Hhd) as (before & after & -> & Hk & Hall).
    exists (y :: before), after. auto.
Qed.

(** With one record per key, no other record has its key. *)
Lemma NoDup_keys_split (l1 l2 : list A) (x : A) :
  NoDup (key <$> (l1 ++ x :: l2)) ->
  Forall (fun y => key y ≠ key x) l1 /\ Forall (fun y => key y ≠ key x) l2.
Proof.
  rewrite fmap_app, fmap_cons. intros Hnd.
  apply NoDup_app in Hnd as (_ & Hdisj & Hnd2).
  apply NoDup_cons in Hnd2 as (Hx & _).
  split; apply Forall_forall; intros y Hy Heq.
  - apply (Hdisj (key y)); [apply list_elem_of_fmap; eauto|].
    rewrite Heq. left.
  - apply Hx. rewrite <- Heq. apply list_elem_of_fmap; eauto.
Qed.

Lemma map_other_keys (k : string) (f : A -> A) (l : list A) :
  Forall (fun y => key y ≠ k) l ->
  map (fun y => if decide (key y = k) then f y else y) l = l.
Proof.
  induction 1 as [|y l Hy _ IH]; simpl; [reflexivity|].
  rewrite IH. destruct (decide (key y = k)); [contradiction|reflexivity].
Qed.

Lemma filter_other_keys (k : string) (l : list A) :
  Forall (fun y => key y ≠ k) l ->
  filter (fun y => key y ≠ k) l = l.
Proof.
  induction 1 as [|y l Hy _ IH]; [reflexivity|].
  rewrite filter_cons, IH. destruct (decide (key y ≠ k)); [reflexivity|contradiction].
Qed.

End Lists.

(** ** The sync context menu *)

(** C1: when the record of the sync is loaded (and the mirror holds one
    record per identifier), a toggle whose requests succeed splits the
    collection around that record and puts in its place the same record with
    the paused flag negated; the records before and after it stay as they
    are, in their order; the value sent with the [syncUpdatePaused] request
    is that negated flag, and it is the flag the next render finds. *)
Theorem togglePause_negates_paused (env : Env) (sync cfg : SyncPair) (w : World) :
  SyncContextMenu.syncConfig_of sync (desktopConfig w) = Some cfg ->
  NoDup (uuid <$> syncPairs (syncConfig (desktopConfig w))) ->
  (forall p, respond env (SyncUpdatePaused (uuid sync) p) = None) ->
  respond env (SyncResetCache (uuid sync)) = None ->
  exists w' log before after,
    run env (DoTogglePause sync) w = (Normal tt, w', log)
    /\ uuid cfg = uuid sync
    /\ syncPairs (syncConfig (desktopConfig w)) = before ++ cfg :: after
    /\ syncPairs (syncConfig (desktopConfig w'))
       = before ++ mkSyncPair (uuid cfg) (negb (paused cfg)) (pairRest cfg) :: after
    /\ remote_calls log
       = [SyncUpdatePaused (uuid sync) (negb (paused cfg)); SyncResetCache (uuid sync)]
    /\ SyncContextMenu.syncConfig_of sync (desktopConfig w')
       = Some (mkSyncPair (uuid cfg) (negb (paused cfg)) (pairRest cfg)).
Proof.
  intros Hcfg Hnd Hpaused Hreset.
  destruct (head_filter_split uuid _ _ _ Hcfg) as (before & after & Hsplit & Hk & Hbefore).
  rewrite Hsplit in Hnd.
  destruct (NoDup_keys_split uuid _ _ _ Hnd) as (_ & Hafter). rewrite Hk in Hafter.
  unfold run, perform. rewrite Hcfg.
  unfold SyncContextMenu.togglePause, function, try_catch_finally, mbind, M_bind,
    await, setChanging, setDesktopConfig, loadingToast, toast_dismiss, emit, modify.
  rewrite Hpaused, Hreset. simpl.
  eexists _, _, before, after. split; [reflexivity|]. simpl.
  assert (Hmap : map (fun pair => if decide (uuid pair = uuid sync)
                   then mkSyncPair (uuid pair) (negb (paused cfg)) (pairRest pair)
                   else pair) (syncPairs (syncConfig (desktopConfig w)))
          = before ++ mkSyncPair (uuid cfg) (negb (paused cfg)) (pairRest cfg) :: after).
  { rewrite Hsplit, map_app. simpl.
    rewrite (map_other_keys uuid _ _ before Hbefore), (map_other_keys uuid _ _ after Hafter).
    destruct (decide (uuid cfg = uuid sync)); [reflexivity|contradiction]. }
  repeat split; try assumption.
  unfold SyncContextMenu.syncConfig_of. simpl. rewrite Hmap.
  rewrite filter_app, filter_cons. simpl.
  destruct (decide (uuid cfg = uuid sync)); [|contradiction].
  replace (filter (fun pair => uuid pair = uuid sync) before) with (@nil SyncPair); [reflexivity|].
  symmetry. clear -Hbefore. induction Hbefore as [|y l Hy _ IH]; [reflexivity|].
  rewrite filter_cons. destruct (decide (uuid y = uuid sync)); [contradiction|assumption].
Qed.

Lemma togglePause_negates_paused_witness :
  exists w' log before after,
    run Samples.env_ok (DoTogglePause Samples.music_pair) Samples.world
    = (Normal tt, w', log)
    /\ uuid Samples.music_pair = uuid Samples.music_pair
    /\ syncPairs (syncConfig (desktopConfig Samples.world))
       = before ++ Samples.music_pair :: after
    /\ syncPairs (syncConfig (desktopConfig w'))
       = before ++ mkSyncPair "s-2" false "Music" :: after
    /\ remote_calls log = [SyncUpdatePaused "s-2" false; SyncResetCache "s-2"]
    /\ SyncContextMenu.syncConfig_of Samples.music_pair (desktopConfig w')
       = Some (mkSyncPair "s-2" false "Music").
Proof.
  apply (togglePause_negates_paused Samples.env_ok Samples.music_pair
           Samples.music_pair Samples.world).
  - reflexivity.
  - apply (bool_decide_unpack _). vm_compute. exact I.
  - intros p. reflexivity.
  - reflexivity.
Defined.

(** C4: a confirmed delete whose request succeeds keeps exactly the records
    whose identifier differs from the deleted sync's, each unchanged and in
    its place, and clears the selected-sync reference; with one record per
    identifier and the sync's record loaded, the collection loses that one
    record and nothing else. *)
Theorem deleteSync_removes_matching (env : Env) (sync : SyncPair) (w : World) :
  showConfirmDialog env = true ->
  respond env (SyncUpdateRemoved (uuid sync) true) = None ->
  exists w' log,
    run env (DoDeleteSync sync) w = (Normal tt, w', log)
    /\ syncPairs (syncConfig (desktopConfig w'))
       = filter (fun pair => uuid pair ≠ uuid sync)
                (syncPairs (syncConfig (desktopConfig w)))
    /\ (forall pair, pair ∈ syncPairs (syncConfig (desktopConfig w'))
          <-> pair ∈ syncPairs (syncConfig (desktopConfig w))
              /\ uuid pair ≠ uuid sync)
    /\ selectedSync w' = None
    /\ (NoDup (uuid <$> syncPairs (syncConfig (desktopConfig w))) ->
        forall cfg,
          SyncContextMenu.syncConfig_of sync (desktopConfig w) = Some cfg ->
          exists before after,
            syncPairs (syncConfig (desktopConfig w)) = before ++ cfg :: after
            /\ syncPairs (syncConfig (desktopConfig w')) = before ++ after).
Proof.
  intros Hconfirm Hremoved.
  unfold run, perform, SyncContextMenu.deleteSync, function, try_catch_finally,
    mbind, M_bind, mret, M_ret, await, setChanging, setSelectedSync,
    setDesktopConfig, navigate, loadingToast, toast_dismiss, emit, modify.
  rewrite Hconfirm, Hremoved. simpl.
  eexists _, _. split; [reflexivity|]. simpl.
  split; [reflexivity|]. split; [|split; [reflexivity|]].
  - intros pair. rewrite list_elem_of_filter. tauto.
  - intros Hnd cfg Hcfg.
    destruct (head_filter_split uuid _ _ _ Hcfg) as (before & after & Hsplit & Hk & Hbefore).
    rewrite Hsplit in Hnd.
    destruct (NoDup_keys_split uuid _ _ _ Hnd) as (_ & Hafter). rewrite Hk in Hafter.
    exists before, after. split; [assumption|].
    rewrite Hsplit, filter_app, filter_cons.
    rewrite (filter_other_keys uuid _ before Hbefore), (filter_other_keys uuid _ after Hafter).
    destruct (decide (uuid cfg ≠ uuid sync)); [contradiction|reflexivity].
Qed.

Lemma deleteSync_removes_matching_witness :
  exists w' log,
    run Samples.env_ok (DoDeleteSync Samples.music_pair) Samples.world
    = (Normal tt, w', log)
    /\ syncPairs (syncConfig (desktopConfig w')) = [Samples.docs_pair]
    /\ selectedSync w' = None.
Proof.
  destruct (deleteSync_removes_matching Samples.env_ok Samples.music_pair
              Samples.world eq_refl eq_refl)
    as (w' & log & Hrun & Hpairs & _ & Hsel & _).
  exists w', log. split; [exact Hrun|]. split; [|exact Hsel].
  rewrite Hpairs. reflexivity.
Defined.

(** ** Every action *)

Ltac unfold_handler :=
  unfold run, perform, SyncContextMenu.togglePause, SyncContextMenu.deleteSync,
    DriveListContextMenu.createDirectory, PublicLinkDirectory.toggleStatus,
    PublicLinkDirectory.save, PublicLinkDirectory.refetch, function,
    try_catch_finally, report, mbind, M_bind, mret, M_ret, await, await_value,
    setChanging, setSelectedSync, setDesktopConfig, setItems,
    directoryUUIDToNameCache_set, setQueryData, setOpen, setSaving, setTimeout,
    navigate, console_error, errorToast, loadingToast, toast_dismiss, return_,
    emit, modify, with_saving, with_timers in *.

(** Case analysis on everything a run branches on. *)
Ltac split_run H :=
  repeat (simpl in H;
          match type of H with
          | context [match respond ?e ?c with _ => _ end] =>
              destruct (respond e c) eqn:?
          | context [if ?b then _ else _] => destruct b eqn:?
          | context [match ?x with Some _ => _ | None => _ end] =>
              destruct x eqn:?
          end);
  simpl in H.

(** Membership of a rejected request in a log that is known event by event. *)
Ltac find_rejection H :=
  repeat (apply elem_of_cons in H as [H|H]; [try discriminate H|]);
  try (apply elem_of_nil in H; contradiction).

(** C2: if, during any of the actions, a request is rejected with an error,
    then the mirrored state at the end is the one before the action, the run
    ends normally, and exactly one error notification is shown, whose text is
    the error's message, or its string form when it has no message.  What
    differs at the end is at most a busy flag: when no action of the sync menu
    was running and no timer was pending at the start, the world at the end,
    once the timer that resets [saving] has run, is the world of the start. *)
Theorem rejection_keeps_mirror (env : Env) (a : Action) (w w' : World)
    (end_ : completion unit) (log : list Event) (c : Call) (e : Error) :
  run env a w = (end_, w', log) ->
  Remote c (Some e) ∈ log ->
  mirror w' = mirror w
  /\ end_ = Normal tt
  /\ error_toasts log
     = [match message e with Some m => m | None => toString e end]
  /\ (changing w = false -> timers w = [] -> run_timers w' = w).
Proof.
  intros Hrun Hin. destruct w. destruct a; unfold_handler; split_run Hrun;
    injection Hrun as <- <- <-; find_rejection Hin;
    injection Hin as <- <-; repeat split; simpl; intros;
    repeat match goal with
           | H : _ || _ = false |- _ => apply orb_false_elim in H as [? ?]
           end;
    subst; reflexivity.
Qed.

Lemma rejection_keeps_mirror_witness :
  let r := run (Samples.env_rejecting Samples.bare)
             (DoToggleStatus Samples.report_item true) Samples.world in
  Remote (EnablePublicLink "directory" "d-1") (Some Samples.bare) ∈ r.2
  /\ mirror r.1.2 = mirror Samples.world
  /\ r.1.1 = Normal tt
  /\ error_toasts r.2 = ["rejected"]
  /\ run_timers r.1.2 = Samples.world.
Proof.
  assert (Hin : Remote (EnablePublicLink "directory" "d-1") (Some Samples.bare)
                ∈ (run (Samples.env_rejecting Samples.bare)
                     (DoToggleStatus Samples.report_item true) Samples.world).2)
    by (vm_compute; repeat constructor).
  split; [exact Hin|].
  destruct (rejection_keeps_mirror (Samples.env_rejecting Samples.bare)
              (DoToggleStatus Samples.report_item true) Samples.world _ _ _
              (EnablePublicLink "directory" "d-1") Samples.bare eq_refl Hin)
    as (Hmirror & Hend & Htoasts & Hworld).
  split; [exact Hmirror|]. split; [exact Hend|]. split; [exact Htoasts|].
  exact (Hworld eq_refl eq_refl).
Defined.

(** A rejection with a message shows the message. *)
Example togglePause_rejected_shows_message :
  error_toasts
    (run (Samples.env_rejecting Samples.boom) (DoTogglePause Samples.music_pair)
       Samples.world).2
  = ["boom"].
Proof. reflexivity. Qed.

(** C3, as the handlers have it: an action whose guard holds (no loaded
    [syncConfig] for [togglePause]; no loaded [status], or [saving] set, for
    [toggleStatus] and [save]; no existing link for [save]) ends at once,
    leaves the world as it is and shows and sends nothing. *)
Theorem guarded_action_is_noop (env : Env) (a : Action) (w : World) :
  guarded a w ->
  run env a w = (Normal tt, w, []).
Proof.
  destruct a; simpl; unfold run, perform; intros Hguard.
  - rewrite Hguard. reflexivity.
  - contradiction.
  - contradiction.
  - unfold PublicLinkDirectory.toggleStatus.
    destruct (status w) as [st|]; [|reflexivity].
    destruct Hguard as [Hst|Hsaving]; [discriminate|].
    rewrite Hsaving. reflexivity.
  - unfold PublicLinkDirectory.save.
    destruct (status w) as [st|]; [|reflexivity].
    destruct Hguard as [Hst|[Hst|Hsaving]]; [discriminate| |].
    + injection Hst as ->. reflexivity.
    + rewrite Hsaving, orb_true_r. reflexivity.
Qed.

Lemma guarded_action_is_noop_witness :
  guarded (DoTogglePause Samples.photos_pair) Samples.world
  /\ run Samples.env_ok (DoTogglePause Samples.photos_pair) Samples.world
     = (Normal tt, Samples.world, []).
Proof.
  split; [reflexivity|].
  apply (guarded_action_is_noop Samples.env_ok
           (DoTogglePause Samples.photos_pair) Samples.world).
  reflexivity.
Defined.

(** C3 as stated fails on the sync menu.  [deleteSync] has no guard on the
    loaded record: for a sync without a record in the mirror, the delete event
    on the bridge leads, once confirmed, to the [syncUpdateRemoved] request.
    And no handler of the menu reads the [changing] flag that they set while
    they run: a second [togglePause] started in the world the first one left
    at its first [await] sends its requests all the same. *)
Lemma sync_menu_actions_are_not_guarded :
  (SyncContextMenu.syncConfig_of Samples.photos_pair (desktopConfig Samples.world)
   = None
   /\ remote_calls
        (SyncContextMenu.deleteSyncListener Samples.env_ok Samples.photos_pair
           "s-3" Samples.world []).2
      = [SyncUpdateRemoved "s-3" true])
  /\ ((setChanging true ;; loadingToast) Samples.world []
      = (Normal tt, Samples.busy_world, [LoadingToast])
      /\ changing Samples.busy_world = true
      /\ remote_calls
           (run Samples.env_ok (DoTogglePause Samples.music_pair)
              Samples.busy_world).2
         = [SyncUpdatePaused "s-2" false; SyncResetCache "s-2"]).
Proof.
  repeat split.
Qed.

(** ** The drive list context menu *)

(** C5: when the name is entered and the request succeeds, the listing
    becomes the records that collide with the created one neither on the
    identifier nor on the lower-cased name, in their order, followed by the
    created record; the only record left with that lower-cased name is the
    created one. *)
Theorem createDirectory_replaces_collisions (env : Env) (parent : string) (w : World) :
  cancelled (showInputDialog env) = false ->
  respond env (CreateDirectory (value (showInputDialog env)) parent) = None ->
  let item := created env (value (showInputDialog env)) parent in
  exists w' log kept,
    run env (DoCreateDirectory parent) w = (Normal tt, w', log)
    /\ items w' = kept ++ [item]
    /\ kept = filter (fun prevItem =>
                        itemUUID prevItem ≠ itemUUID item
                        /\ toLowerCase env (name prevItem) ≠ toLowerCase env (name item))
                     (items w)
    /\ (forall prevItem, prevItem ∈ kept <->
          prevItem ∈ items w
          /\ itemUUID prevItem ≠ itemUUID item
          /\ toLowerCase env (name prevItem) ≠ toLowerCase env (name item))
    /\ filter (fun it => toLowerCase env (name it) = toLowerCase env (name item))
              (items w')
       = [item].
Proof.
  intros Hcancelled Hcreated item. unfold_handler.
  rewrite Hcancelled, Hcreated. simpl.
  eexists _, _, _. split; [reflexivity|]. simpl. fold item.
  split; [reflexivity|]. split; [reflexivity|]. split.
  - intros prevItem. rewrite list_elem_of_filter. tauto.
  - rewrite filter_app, filter_cons, filter_nil.
    destruct (decide (toLowerCase env (name item) = toLowerCase env (name item)));
      [|contradiction].
    replace (filter _ (filter _ (items w))) with (@nil DriveCloudItem); [reflexivity|].
    symmetry. induction (items w) as [|it l IH]; [reflexivity|].
    rewrite filter_cons. destruct (decide _) as [[_ Hname]|_]; [|exact IH].
    rewrite filter_cons. destruct (decide _); [contradiction|exact IH].
Qed.

Lemma createDirectory_replaces_collisions_witness :
  exists w' log kept,
    run Samples.env_ok (DoCreateDirectory "root") Samples.world
    = (Normal tt, w', log)
    /\ items w' = kept ++ [mkItem "d-9" "reports" false "root"]
    /\ kept = [Samples.notes_item].
Proof.
  destruct (createDirectory_replaces_collisions Samples.env_ok "root"
              Samples.world eq_refl eq_refl)
    as (w' & log & kept & Hrun & Hitems & Hkept & _).
  exists w', log, kept. split; [exact Hrun|]. split; [exact Hitems|].
  rewrite Hkept. reflexivity.
Defined.

(** ** The directory public-link panel *)

(** A toggle of either kind whose request and refetch succeed, from a
    location that includes "links". *)
Lemma toggleStatus_in_links (env : Env) (item : DriveCloudItem) (checked : bool)
    (st : DirLinkStatusResponse) (w : World) :
  status w = Some st ->
  saving w = false ->
  (checked = false -> exists_ st = true) ->
  includes (location w) "links" = true ->
  respond env (if checked then EnablePublicLink "directory" (itemUUID item)
               else DisablePublicLink "directory" (itemUUID item) (statusUUID st))
  = None ->
  respond env (Refetch (itemUUID item)) = None ->
  exists w' log,
    run env (DoToggleStatus item checked) w = (Normal tt, w', log)
    /\ items w' = filter (fun prevItem => itemUUID prevItem ≠ itemUUID item) (items w)
    /\ open w' = false.
Proof.
  intros Hst Hsaving Hexists Hloc Hcall Hrefetch. unfold_handler.
  rewrite Hst, Hsaving, Hloc. destruct checked.
  - rewrite Hcall. simpl. rewrite Hrefetch. simpl.
    destruct (fetched env); simpl; eexists _, _; repeat split.
  - rewrite (Hexists eq_refl). simpl. rewrite Hcall. simpl. rewrite Hrefetch. simpl.
    destruct (fetched env); simpl; eexists _, _; repeat split.
Qed.

(** Away from a "links" location the same toggle leaves the listing and the
    panel as they are. *)
Lemma toggleStatus_outside_links (env : Env) (item : DriveCloudItem) (checked : bool)
    (w w' : World) (end_ : completion unit) (log : list Event) :
  includes (location w) "links" = false ->
  run env (DoToggleStatus item checked) w = (end_, w', log) ->
  items w' = items w /\ open w' = open w.
Proof.
  intros Hloc Hrun. destruct w. simpl in Hloc. unfold_handler.
  split_run Hrun; injection Hrun as <- <- <-; try congruence; split; reflexivity.
Qed.

Example disable_in_drive_keeps_item :
  items (run Samples.env_ok (DoToggleStatus Samples.report_item false)
           Samples.drive_world).1.2
  = [Samples.report_item; Samples.notes_item].
Proof. reflexivity. Qed.

(** C8: for an item whose link exists, a disable whose request and refetch
    succeed, from a location that includes "links", leaves in the listing
    exactly the records with another identifier, in their order, and closes
    the panel. *)
Theorem disable_in_links_removes_item (env : Env) (item : DriveCloudItem)
    (st : DirLinkStatusResponse) (w : World) :
  status w = Some st ->
  exists_ st = true ->
  saving w = false ->
  includes (location w) "links" = true ->
  respond env (DisablePublicLink "directory" (itemUUID item) (statusUUID st)) = None ->
  respond env (Refetch (itemUUID item)) = None ->
  exists w' log,
    run env (DoToggleStatus item false) w = (Normal tt, w', log)
    /\ items w' = filter (fun prevItem => itemUUID prevItem ≠ itemUUID item) (items w)
    /\ (forall it, it ∈ items w' <-> it ∈ items w /\ itemUUID it ≠ itemUUID item)
    /\ open w' = false
    /\ remote_calls log
       = [DisablePublicLink "directory" (itemUUID item) (statusUUID st);
          Refetch (itemUUID item)].
Proof.
  intros Hst Hexists Hsaving Hloc Hcall Hrefetch.
  destruct (toggleStatus_in_links env item false st w Hst Hsaving
              (fun _ => Hexists) Hloc Hcall Hrefetch)
    as (w' & log & Hrun & Hitems & Hopen).
  exists w', log. split; [exact Hrun|]. split; [exact Hitems|].
  split; [|split; [exact Hopen|]].
  - intros it. rewrite Hitems, list_elem_of_filter. tauto.
  - revert Hrun. unfold_handler.
    rewrite Hst, Hsaving, Hloc, Hexists. simpl. rewrite Hcall. simpl.
    rewrite Hrefetch. simpl.
    destruct (fetched env); simpl; intros Hrun; injection Hrun as <- <-; reflexivity.
Qed.

Lemma disable_in_links_removes_item_witness :
  exists w' log,
    run Samples.env_ok (DoToggleStatus Samples.report_item false) Samples.world
    = (Normal tt, w', log)
    /\ items w' = [Samples.notes_item]
    /\ open w' = false.
Proof.
  destruct (disable_in_links_removes_item Samples.env_ok Samples.report_item
              Samples.a_link Samples.world eq_refl eq_refl eq_refl eq_refl
              eq_refl eq_refl)
    as (w' & log & Hrun & Hitems & _ & Hopen & _).
  exists w', log. split; [exact Hrun|]. split; [|exact Hopen].
  rewrite Hitems. reflexivity.
Defined.

(** C10: the removal does not depend on the direction of the toggle: after
    an enable as after a disable (of an existing link) whose request and
    refetch succeed, from a location that includes "links", the item is out of
    the listing and the panel is closed. *)
Theorem any_toggle_in_links_removes_item (env : Env) (item : DriveCloudItem)
    (checked : bool) (st : DirLinkStatusResponse) (w : World) :
  status w = Some st ->
  saving w = false ->
  (checked = false -> exists_ st = true) ->
  includes (location w) "links" = true ->
  respond env (if checked then EnablePublicLink "directory" (itemUUID item)
               else DisablePublicLink "directory" (itemUUID item) (statusUUID st))
  = None ->
  respond env (Refetch (itemUUID item)) = None ->
  exists w' log,
    run env (DoToggleStatus item checked) w = (Normal tt, w', log)
    /\ items w' = filter (fun prevItem => itemUUID prevItem ≠ itemUUID item) (items w)
    /\ (forall it, it ∈ items w' -> itemUUID it ≠ itemUUID item)
    /\ open w' = false.
Proof.
  intros Hst Hsaving Hexists Hloc Hcall Hrefetch.
  destruct (toggleStatus_in_links env item checked st w Hst Hsaving Hexists
              Hloc Hcall Hrefetch)
    as (w' & log & Hrun & Hitems & Hopen).
  exists w', log. split; [exact Hrun|]. split; [exact Hitems|].
  split; [|exact Hopen].
  intros it. rewrite Hitems, list_elem_of_filter. tauto.
Qed.

Lemma any_toggle_in_links_removes_item_witness :
  exists w' log,
    run Samples.env_ok (DoToggleStatus Samples.report_item true) Samples.world
    = (Normal tt, w', log)
    /\ items w' = [Samples.notes_item]
    /\ open w' = false.
Proof.
  destruct (any_toggle_in_links_removes_item Samples.env_ok Samples.report_item
              true Samples.a_link Samples.world eq_refl eq_refl
              (fun H => match Bool.diff_true_false H with end)
              eq_refl eq_refl eq_refl)
    as (w' & log & Hrun & Hitems & _ & Hopen).
  exists w', log. split; [exact Hrun|]. split; [|exact Hopen].
  rewrite Hitems. reflexivity.
Defined.

(** ** Utilities, in the arithmetic reading *)

Lemma Qlt_bool_iff (x y : Q) : Qlt_bool x y = true <-> (x < y)%Q.
Proof.
  unfold Qlt_bool. rewrite negb_true_iff. split.
  - intros Hle. apply Qnot_le_lt. intros H. apply Qle_bool_iff in H. congruence.
  - intros Hlt. destruct (Qle_bool y x) eqn:Hle; [|reflexivity].
    apply Qle_bool_iff in Hle. exfalso. exact (Qlt_not_le _ _ Hlt Hle).
Qed.

Lemma Qlt_bool_false_iff (x y : Q) : Qlt_bool x y = false <-> (y <= x)%Q.
Proof.
  unfold Qlt_bool. rewrite negb_false_iff. apply Qle_bool_iff.
Qed.

(** The test of [convertTimestampToMs] on a finite timestamp. *)
Lemma convertTimestampToMs_Fin (now : Z) (t : Q) :
  convertTimestampToMs now (Fin t)
  = if Qlt_bool (Qabs (inject_Z now - t)) (Qabs (inject_Z now - t * inject_Z 1000))
    then Fin t
    else Fin (inject_Z (Qfloor (t * inject_Z 1000))).
Proof. reflexivity. Qed.

Lemma Qabs_sub_inject_Z (a b : Z) :
  (Qabs (inject_Z a - inject_Z b) == inject_Z (Z.abs (a - b)))%Q.
Proof.
  unfold Qminus. rewrite <- inject_Z_opp, <- inject_Z_plus. reflexivity.
Qed.

(** *** The unit index *)

Lemma ilog_fuel_spec (fuel : nat) (b n : Z) :
  2 <= b -> 1 <= n -> n < 2 ^ Z.of_nat fuel ->
  0 <= ilog_fuel fuel b n
  /\ b ^ ilog_fuel fuel b n <= n < b ^ (ilog_fuel fuel b n + 1).
Proof.
  intros Hb. revert n. induction fuel as [|fuel IH]; intros n Hn Hfuel.
  - simpl in Hfuel. lia.
  - simpl ilog_fuel. destruct (Z.ltb_spec n b) as [Hlt|Hge].
    + simpl. lia.
    + assert (Hq : 1 <= n / b) by (apply Z.div_le_lower_bound; lia).
      assert (Hq' : n / b < 2 ^ Z.of_nat fuel).
      { apply Z.div_lt_upper_bound; [lia|].
        rewrite Nat2Z.inj_succ, Z.pow_succ_r in Hfuel by lia.
        assert (0 < 2 ^ Z.of_nat fuel) by (apply Z.pow_pos_nonneg; lia). nia. }
      destruct (IH (n / b) Hq Hq') as (Hnonneg & Hlo & Hhi).
      set (j := ilog_fuel fuel b (n / b)) in *.
      split; [lia|].
      replace (1 + j + 1) with (Z.succ (j + 1)) by lia.
      replace (1 + j) with (Z.succ j) by lia.
      rewrite !Z.pow_succ_r by lia.
      pose proof (Z.mul_div_le n b ltac:(lia)).
      pose proof (Z.mul_succ_div_gt n b ltac:(lia)).
      split; nia.
Qed.

Lemma ilog_spec (b n : Z) :
  2 <= b -> 1 <= n ->
  0 <= ilog b n /\ b ^ ilog b n <= n < b ^ (ilog b n + 1).
Proof.
  intros Hb Hn. apply ilog_fuel_spec; try assumption.
  rewrite Nat2Z.inj_succ, Z2Nat.id by apply Z.log2_nonneg.
  apply Z.log2_spec. lia.
Qed.

(** Below one the floor of the logarithm is negative. *)
Lemma floor_log_negative (b : Z) (q : Q) :
  2 <= b -> (0 < q)%Q -> (q < 1)%Q -> floor_log b q < 0.
Proof.
  intros Hb Hpos Hlt. unfold floor_log.
  destruct (Qle_bool 1 q) eqn:Hle.
  - apply Qle_bool_iff in Hle. exfalso. exact (Qlt_not_le _ _ Hlt Hle).
  - assert (Hinv : (1 < / q)%Q).
    { rewrite <- (Qmult_inv_r q) by (intros H; rewrite H in Hpos; discriminate).
      rewrite <- (Qmult_1_l (/ q)) at 2.
      apply Qmult_lt_compat_r; [apply Qinv_lt_0_compat|]; assumption. }
    assert (Hceil : 2 <= Qceiling (/ q)).
    { pose proof (Qle_ceiling (/ q)) as Hc.
      assert (H1 : (inject_Z 1 < inject_Z (Qceiling (/ q)))%Q)
        by (eapply Qlt_le_trans; [exact Hinv|exact Hc]).
      rewrite <- Zlt_Qlt in H1. lia. }
    destruct (ilog_spec b (Qceiling (/ q) - 1) Hb ltac:(lia)) as (Hnonneg & _).
    lia.
Qed.

(** Below one it is the exponent of the largest (negative) power of the
    base that does not exceed the number. *)
Lemma floor_log_below_one (b : Z) (q : Q) :
  2 <= b -> (0 < q)%Q -> (q < 1)%Q ->
  (inject_Z b ^ floor_log b q <= q)%Q
  /\ (q < inject_Z b ^ (floor_log b q + 1))%Q.
Proof.
  intros Hb Hpos Hlt. unfold floor_log.
  destruct (Qle_bool 1 q) eqn:Hle.
  { apply Qle_bool_iff in Hle. exfalso. exact (Qlt_not_le _ _ Hlt Hle). }
  assert (Hq0 : ~ (q == 0)%Q) by (intros H; rewrite H in Hpos; discriminate).
  assert (Hinv : (1 < / q)%Q).
  { rewrite <- (Qmult_inv_r q) by exact Hq0.
    rewrite <- (Qmult_1_l (/ q)) at 2.
    apply Qmult_lt_compat_r; [apply Qinv_lt_0_compat|]; assumption. }
  assert (Hceil : 2 <= Qceiling (/ q)).
  { pose proof (Qle_ceiling (/ q)) as Hc.
    assert (H1 : (inject_Z 1 < inject_Z (Qceiling (/ q)))%Q)
      by (eapply Qlt_le_trans; [exact Hinv|exact Hc]).
    rewrite <- Zlt_Qlt in H1. lia. }
  destruct (ilog_spec b (Qceiling (/ q) - 1) Hb ltac:(lia)) as (Hnonneg & Hlo & Hhi).
  set (j := ilog b (Qceiling (/ q) - 1)) in *.
  assert (Hpow : forall k, 0 <= k -> (0 < inject_Z (b ^ k))%Q).
  { intros k Hk. rewrite <- (Zlt_Qlt 0). apply Z.pow_pos_nonneg; lia. }
  split.
  - replace (1 + j) with (j + 1) by lia.
    rewrite Qpower_opp, <- Zpower_Qpower by lia.
    apply Qle_shift_inv_r; [apply Hpow; lia|].
    rewrite <- (Qmult_inv_r q) by exact Hq0.
    apply Qmult_le_l; [exact Hpos|].
    eapply Qle_trans; [apply Qle_ceiling|]. rewrite <- Zle_Qle. lia.
  - replace (- (1 + j) + 1) with (- j) by lia.
    rewrite Qpower_opp, <- Zpower_Qpower by lia.
    apply Qlt_shift_inv_l; [apply Hpow; lia|].
    rewrite <- (Qmult_inv_r q) by exact Hq0.
    apply Qmult_lt_l; [exact Hpos|].
    eapply Qle_lt_trans; [|apply Qceiling_lt]. rewrite <- Zle_Qle. exact Hlo.
Qed.

(** From one on it is the exponent of the largest power of the base that
    does not exceed the number. *)
Lemma floor_log_from_one (b : Z) (q : Q) :
  2 <= b -> (1 <= q)%Q ->
  0 <= floor_log b q
  /\ (inject_Z (b ^ floor_log b q) <= q)%Q
  /\ (q < inject_Z (b ^ (floor_log b q + 1)))%Q.
Proof.
  intros Hb Hq. unfold floor_log.
  pose proof Hq as Hle. apply Qle_bool_iff in Hle. rewrite Hle.
  assert (Hfloor : 1 <= Qfloor q).
  { change 1 with (Qfloor (inject_Z 1)). apply Qfloor_resp_le. exact Hq. }
  destruct (ilog_spec b (Qfloor q) Hb Hfloor) as (Hnonneg & Hlo & Hhi).
  split; [exact Hnonneg|]. split.
  - eapply Qle_trans; [|apply Qfloor_le]. rewrite <- Zle_Qle. exact Hlo.
  - eapply Qlt_le_trans; [apply Qlt_floor|]. rewrite <- Zle_Qle. lia.
Qed.

Lemma positive_not_neg (q : Q) : (0 < q)%Q -> Qneg_bool q = false.
Proof.
  intros H. apply Qlt_bool_false_iff. apply Qlt_le_weak. exact H.
Qed.

Lemma positive_not_zero (q : Q) : (0 < q)%Q -> Qeq_bool q 0 = false.
Proof.
  intros H. destruct (Qeq_bool q 0) eqn:Heq; [|reflexivity].
  apply Qeq_bool_eq in Heq. rewrite Heq in H. discriminate.
Qed.

Lemma unit_index_positive (q : Q) :
  (0 < q)%Q -> unit_index (Fin q) = Int (floor_log 1024 q).
Proof.
  intros H. unfold unit_index, Math_floor_log_quot.
  rewrite (positive_not_neg q H), (positive_not_zero q H). reflexivity.
Qed.

(** The steps of [formatBytes] on a non-zero finite input. *)
Lemma formatBytes_nonzero (q : Q) (decimals : option Z) :
  Qeq_bool q 0 = false ->
  formatBytes (Fin q) decimals
  = (fixed ← toFixed (div (Fin q) (Math_pow 1024 (unit_index (Fin q))))
               (if default 2 decimals <? 0 then 0 else default 2 decimals);
     mantissa ← Number_toString (parseFloat fixed);
     mret (mantissa +:+ " " +:+ string_or_undefined (index sizes (unit_index (Fin q))))).
Proof.
  intros H. unfold formatBytes. cbv zeta.
  change (strict_eq (Fin q) (Fin 0)) with (Qeq_bool q 0). rewrite H. reflexivity.
Qed.

(** *** Numerals: printing, reading back, printing again *)

Lemma digit_char (x : N) :
  (x < 10)%N ->
  is_digit (pretty_N_char x) = true
  /\ Z.of_nat (nat_of_ascii (pretty_N_char x)) - 48 = Z.of_N x.
Proof.
  intros Hx.
  assert (x = 0 \/ x = 1 \/ x = 2 \/ x = 3 \/ x = 4 \/ x = 5 \/ x = 6 \/ x = 7
          \/ x = 8 \/ x = 9)%N as H by lia.
  repeat (destruct H as [->|H]; [split; reflexivity|]). subst. split; reflexivity.
Qed.

Lemma digit_head (c : Ascii.ascii) :
  is_digit c = true ->
  is_space c = false
  /\ (forall rest, read_sign (String c rest) = (false, String c rest))
  /\ (forall rest, String.prefix "Infinity" (String c rest) = false).
Proof.
  destruct c as [[] [] [] [] [] [] [] []]; intros H; try discriminate H;
    repeat split.
Qed.

Lemma pretty_N_go_app (x : N) (s r : string) :
  pretty_N_go x s +:+ r = pretty_N_go x (s +:+ r).
Proof.
  revert s. induction (N.lt_wf_0 x) as [x _ IH]. intros s.
  destruct (N.eq_dec x 0%N) as [->|Hx]; [reflexivity|].
  rewrite (pretty_N_go_step x s), (pretty_N_go_step x (s +:+ r)) by lia.
  rewrite IH by (apply N.div_lt; lia). reflexivity.
Qed.

Lemma pretty_N_go_head (x : N) (s : string) :
  (0 < x)%N ->
  exists c s', pretty_N_go x s = String c s' /\ is_digit c = true.
Proof.
  revert s. induction (N.lt_wf_0 x) as [x _ IH]. intros s Hx.
  rewrite pretty_N_go_step by exact Hx.
  destruct (N.eq_dec (x `div` 10)%N 0%N) as [H0|H0].
  - rewrite H0, pretty_N_go_0. eexists _, _. split; [reflexivity|].
    apply digit_char. apply N.mod_lt. lia.
  - apply IH; [apply N.div_lt; lia|]. apply N.neq_0_lt_0. exact H0.
Qed.

Lemma read_pretty_N_go (x : N) :
  exists d : nat,
    (x = 0%N -> d = O)
    /\ ((0 < x)%N -> 10 ^ (Z.of_nat d - 1) <= Z.of_N x)
    /\ Z.of_N x < 10 ^ Z.of_nat d
    /\ forall s acc cnt,
         read_digits (pretty_N_go x s) acc cnt
         = read_digits s (acc * 10 ^ Z.of_nat d + Z.of_N x) (cnt + d)%nat
         /\ String.length (pretty_N_go x s) = (d + String.length s)%nat.
Proof.
  induction (N.lt_wf_0 x) as [x _ IH].
  destruct (N.eq_dec x 0%N) as [->|Hx].
  - exists O. split; [reflexivity|]. split; [lia|]. split; [reflexivity|].
    intros s acc cnt. rewrite pretty_N_go_0. split; [|reflexivity].
    f_equal; [simpl; lia|lia].
  - destruct (IH (x `div` 10)%N ltac:(apply N.div_lt; lia)) as (d & Hd0 & Hlo & Hhi & Hread).
    pose proof (N.div_mod x 10 ltac:(lia)) as Hdm.
    pose proof (N.mod_lt x 10 ltac:(lia)) as Hmod.
    destruct (digit_char (x `mod` 10)%N Hmod) as (Hdig & Hval).
    assert (Hstep : forall s, pretty_N_go x s
              = pretty_N_go (x `div` 10) (String (pretty_N_char (x `mod` 10)) s))
      by (intros s; apply pretty_N_go_step; lia).
    set (xd := (x `div` 10)%N) in *. set (xm := (x `mod` 10)%N) in *.
    clearbody xd xm. clear IH.
    exists (S d). split; [lia|].
    assert (Hpow : 10 ^ Z.of_nat (S d) = 10 * 10 ^ Z.of_nat d)
      by (rewrite Nat2Z.inj_succ, Z.pow_succ_r by lia; reflexivity).
    split; [|split].
    + intros _. replace (Z.of_nat (S d) - 1) with (Z.of_nat d) by lia.
      destruct (N.eq_dec xd 0%N) as [H0|H0].
      * rewrite (Hd0 H0). simpl. lia.
      * specialize (Hlo ltac:(lia)).
        assert (d <> O).
        { intros ->. simpl in Hhi. lia. }
        replace (Z.of_nat d) with (Z.succ (Z.of_nat d - 1)) by lia.
        rewrite Z.pow_succ_r by lia.
        lia.
    + rewrite Hpow. lia.
    + intros s acc cnt. rewrite Hstep.
      destruct (Hread (String (pretty_N_char xm) s) acc cnt) as (Hr & Hl).
      rewrite Hr, Hl. simpl read_digits. rewrite Hdig. split; [|simpl; lia].
      f_equal; [|lia]. rewrite Hval, Hpow. lia.
Qed.

Lemma read_zeros (p : nat) (r : string) (acc : Z) (cnt : nat) :
  read_digits (zeros p +:+ r) acc cnt
  = read_digits r (acc * 10 ^ Z.of_nat p) (cnt + p)%nat.
Proof.
  revert acc cnt. induction p as [|p IH]; intros acc cnt.
  - simpl. f_equal; [lia|lia].
  - simpl zeros. simpl String.append. simpl read_digits.
    change (is_digit "0") with true. cbv iota. rewrite IH.
    f_equal; [|lia].
    rewrite Nat2Z.inj_succ, Z.pow_succ_r by lia.
    change (Z.of_nat (nat_of_ascii "0") - 48) with 0. lia.
Qed.

Lemma read_pretty_Z (z : Z) :
  0 <= z ->
  exists d : nat,
    (1 <= d)%nat
    /\ (z = 0 -> d = 1%nat)
    /\ (0 < z -> 10 ^ (Z.of_nat d - 1) <= z)
    /\ z < 10 ^ Z.of_nat d
    /\ String.length (pretty z) = d
    /\ (forall r acc cnt,
          read_digits (pretty z +:+ r) acc cnt
          = read_digits r (acc * 10 ^ Z.of_nat d + z) (cnt + d)%nat)
    /\ (forall acc cnt,
          read_digits (pretty z) acc cnt
          = (acc * 10 ^ Z.of_nat d + z, (cnt + d)%nat, EmptyString))
    /\ exists c s', pretty z = String c s' /\ is_digit c = true.
Proof.
  intros Hz. destruct z as [|p|p]; [| |lia].
  - assert (Hzero : forall r acc cnt,
               read_digits (pretty 0 +:+ r) acc cnt
               = read_digits r (acc * 10 ^ Z.of_nat 1 + 0) (cnt + 1)%nat).
    { intros r acc cnt.
      replace (acc * 10 ^ Z.of_nat 1 + 0)
        with (10 * acc + (Z.of_nat (nat_of_ascii "0") - 48))
        by (change (10 ^ Z.of_nat 1) with 10;
            change (Z.of_nat (nat_of_ascii "0") - 48) with 0; lia).
      replace (cnt + 1)%nat with (S cnt) by lia. reflexivity. }
    exists 1%nat. split; [lia|]. split; [reflexivity|]. split; [lia|].
    split; [reflexivity|]. split; [reflexivity|]. split; [exact Hzero|].
    split; [intros acc cnt; exact (Hzero EmptyString acc cnt)|].
    exists "0"%char, EmptyString. split; reflexivity.
  - destruct (read_pretty_N_go (N.pos p)) as (d & Hd0 & Hlo & Hhi & Hread).
    assert (Hpretty : pretty (Z.pos p) = pretty_N_go (N.pos p) EmptyString).
    { unfold pretty, pretty_Z, pretty, pretty_positive, pretty, pretty_N.
      destruct (decide (N.pos p = 0%N)); [discriminate|reflexivity]. }
    specialize (Hlo ltac:(lia)).
    assert (Hd : (1 <= d)%nat).
    { destruct d; [|lia]. simpl in Hhi. lia. }
    exists d. split; [exact Hd|]. split; [lia|]. split; [intros _; exact Hlo|].
    split; [exact Hhi|]. rewrite Hpretty. split; [|split; [|split]].
    + destruct (Hread EmptyString 0 O) as (_ & Hl). rewrite Hl. simpl. lia.
    + intros r acc cnt. rewrite pretty_N_go_app. simpl String.append.
      apply Hread.
    + intros acc cnt. destruct (Hread EmptyString acc cnt) as (Hr & _).
      rewrite Hr. reflexivity.
    + apply pretty_N_go_head. lia.
Qed.

Lemma parseFloat_digit_head (str : string) (c : Ascii.ascii) (s' : string) :
  str = String c s' -> is_digit c = true ->
  parseFloat str
  = let '(ip, ni, s) := read_digits str 0 O in
    let '(fp, nf, s) :=
      match s with
      | String "."%char s' => read_digits s' ip O
      | _ => (ip, O, s)
      end in
    match ni, nf with
    | O, O => NaN
    | _, _ =>
        Fin (inject_Z fp * inject_Z 10 ^ (read_exponent s - Z.of_nat nf))%Q
    end.
Proof.
  intros -> Hdig. destruct (digit_head c Hdig) as (Hspace & Hsign & Hprefix).
  unfold parseFloat. simpl skip_spaces. rewrite Hspace, Hsign, Hprefix.
  reflexivity.
Qed.

Lemma parseFloat_decimal_numeral (n : Z) (f : nat) :
  0 <= n ->
  parseFloat (decimal_numeral n f)
  = Fin (inject_Z n * inject_Z 10 ^ (0 - Z.of_nat f))%Q.
Proof.
  intros Hn. destruct f as [|f'].
  - simpl decimal_numeral.
    destruct (read_pretty_Z n Hn) as (d & Hd & _ & _ & _ & _ & _ & Hread & c & s' & Hhead & Hdig).
    rewrite (parseFloat_digit_head _ c s' Hhead Hdig), Hread.
    destruct d; [lia|]. simpl. do 2 f_equal; lia.
  - change (decimal_numeral n (S f'))
      with (pretty (n / 10 ^ Z.of_nat (S f')) +:+ "." +:+
            zeros (S f' - String.length (pretty (n mod 10 ^ Z.of_nat (S f')))) +:+
            pretty (n mod 10 ^ Z.of_nat (S f'))).
    assert (Hf : (1 <= S f')%nat) by lia. revert Hf.
    generalize (S f'). intros f Hf.
    assert (Hp : 0 < 10 ^ Z.of_nat f) by (apply Z.pow_pos_nonneg; lia).
    pose proof (Z.div_mod n (10 ^ Z.of_nat f) ltac:(lia)) as Hdm.
    pose proof (Z.mod_pos_bound n (10 ^ Z.of_nat f) Hp) as Hmod.
    assert (Hdiv : 0 <= n / 10 ^ Z.of_nat f) by (apply Z.div_pos; lia).
    set (ip := n / 10 ^ Z.of_nat f) in *. set (fp := n mod 10 ^ Z.of_nat f) in *.
    destruct (read_pretty_Z ip Hdiv) as (d1 & Hd1 & _ & _ & _ & _ & Hread1 & _ & c & s' & Hhead & Hdig).
    destruct (read_pretty_Z fp ltac:(lia)) as (d2 & Hd2 & Hz2 & Hlo2 & _ & Hlen2 & _ & Hread2 & _).
    assert (Hd2f : (d2 <= f)%nat).
    { destruct (Z.eq_dec fp 0) as [H0|H0]; [rewrite (Hz2 H0); lia|].
      specialize (Hlo2 ltac:(lia)).
      assert (H : 10 ^ (Z.of_nat d2 - 1) < 10 ^ Z.of_nat f) by lia.
      apply Z.pow_lt_mono_r_iff in H; lia. }
    rewrite (parseFloat_digit_head _ c (s' +:+ "." +:+ zeros (f - String.length (pretty fp)) +:+ pretty fp)).
    2:{ rewrite Hhead. reflexivity. }
    2:{ exact Hdig. }
    rewrite Hread1.
    change ("." +:+ zeros (f - String.length (pretty fp)) +:+ pretty fp)
      with (String "."%char (zeros (f - String.length (pretty fp)) +:+ pretty fp)).
    cbn [read_digits]. change (is_digit ".") with false. cbv iota beta.
    rewrite Hlen2.
    rewrite (read_zeros (f - d2) (pretty fp) (0 * 10 ^ Z.of_nat d1 + ip) 0).
    rewrite Hread2.
    destruct d1; [lia|]. cbv iota beta. simpl read_exponent.
    f_equal.
    replace (0 + (f - d2) + d2)%nat with f by lia.
    replace ((0 * 10 ^ Z.of_nat (S d1) + ip) * 10 ^ Z.of_nat (f - d2) * 10 ^ Z.of_nat d2 + fp)
      with n; [reflexivity|].
    rewrite <- Z.mul_assoc, <- Z.pow_add_r by lia.
    replace (Z.of_nat (f - d2) + Z.of_nat d2) with (Z.of_nat f) by lia.
    lia.
Qed.

(** Printing respects the equality of rationals. *)
Lemma decimal_scale_comp (fuel k : nat) (x y : Q) :
  (x == y)%Q -> decimal_scale fuel k x = decimal_scale fuel k y.
Proof.
  intros Hxy. revert k. induction fuel as [|fuel IH]; intros k; [reflexivity|].
  cbn [decimal_scale]. cbv zeta. rewrite (IH (S k)).
  assert (H1 : (x * inject_Z (10 ^ Z.of_nat k) == y * inject_Z (10 ^ Z.of_nat k))%Q)
    by (rewrite Hxy; reflexivity).
  rewrite (Qfloor_comp _ _ H1), (Qeqb_comp _ _ H1 _ _ (Qeq_refl _)). reflexivity.
Qed.

Lemma Number_toString_comp (x y : Q) :
  (x == y)%Q -> Number_toString (Fin x) = Number_toString (Fin y).
Proof.
  intros Hxy. unfold Number_toString, Qneg_bool, Qlt_bool.
  pose proof (Qabs_wd _ _ Hxy) as Habs.
  rewrite (Qeqb_comp _ _ Hxy _ _ (Qeq_refl 0)).
  rewrite (Qleb_comp _ _ (Qeq_refl 0) _ _ Hxy).
  rewrite (Qleb_comp _ _ (Qeq_refl (inject_Z (10 ^ 21))) _ _ Habs).
  rewrite (Qleb_comp _ _ (Qeq_refl (1 # 1000000)) _ _ Habs).
  rewrite (decimal_scale_comp 101 0 _ _ Habs).
  destruct (decimal_scale 101 0 (Qabs y)) as [k|]; [|reflexivity].
  rewrite (Qfloor_comp (Qabs x * inject_Z (10 ^ Z.of_nat k))
             (Qabs y * inject_Z (10 ^ Z.of_nat k))) by (rewrite Habs; reflexivity).
  reflexivity.
Qed.

Lemma decimal_scale_total (fuel k k0 : nat) (x : Q) :
  (k <= k0 < k + fuel)%nat ->
  (exists z : Z, x * inject_Z (10 ^ Z.of_nat k0) == inject_Z z)%Q ->
  exists k', decimal_scale fuel k x = Some k'.
Proof.
  intros Hk (z & Hz). revert k Hk. induction fuel as [|fuel IH]; intros k Hk; [lia|].
  cbn [decimal_scale]. cbv zeta. destruct (Qeq_bool _ _) eqn:Htest; [eauto|].
  apply IH. destruct (Nat.eq_dec k k0) as [->|Hne]; [|lia].
  rewrite (Qfloor_comp _ _ Hz), Qfloor_Z in Htest.
  rewrite (Qeq_eq_bool _ _ Hz) in Htest. discriminate.
Qed.

(** A positive decimal of at most 100 fraction digits, between 10^-6 and
    10^21, has a string. *)
Lemma Number_toString_decimal (n : Z) (f : Z) :
  0 <= f <= 100 -> 10 ^ f <= n * 10 ^ 6 -> n < 10 ^ 21 * 10 ^ f ->
  exists s, Number_toString (Fin (inject_Z n / inject_Z (10 ^ f))) = Value s.
Proof.
  intros Hf Hlo Hhi.
  assert (Hp : 0 < 10 ^ f) by (apply Z.pow_pos_nonneg; lia).
  assert (Hn : 0 < n) by lia.
  assert (HpQ : (0 < inject_Z (10 ^ f))%Q) by (rewrite <- (Zlt_Qlt 0); exact Hp).
  set (x := (inject_Z n / inject_Z (10 ^ f))%Q).
  assert (Hx : (0 < x)%Q).
  { apply Qlt_shift_div_l; [exact HpQ|]. rewrite Qmult_0_l, <- (Zlt_Qlt 0). exact Hn. }
  assert (Habs : (Qabs x == x)%Q) by (apply Qabs_pos, Qlt_le_weak, Hx).
  unfold Number_toString.
  rewrite (positive_not_zero x Hx), (positive_not_neg x Hx).
  assert (Hbig : Qle_bool (inject_Z (10 ^ 21)) (Qabs x) = false).
  { destruct (Qle_bool _ _) eqn:Hle; [|reflexivity]. apply Qle_bool_iff in Hle.
    rewrite Habs in Hle. exfalso. apply (Qle_not_lt _ _ Hle).
    apply Qlt_shift_div_r; [exact HpQ|]. rewrite <- inject_Z_mult, <- Zlt_Qlt. exact Hhi. }
  assert (Hsmall : Qlt_bool (Qabs x) (1 # 1000000) = false).
  { apply Qlt_bool_false_iff. rewrite Habs.
    apply Qle_shift_div_l; [exact HpQ|].
    unfold Qle, Qmult, inject_Z. simpl Qnum. simpl Qden.
    rewrite Z.mul_1_r. change (Z.pos 1000000) with (10 ^ 6). lia. }
  rewrite Hbig, Hsmall. simpl orb. cbv iota.
  destruct (decimal_scale_total 101 0 (Z.to_nat f) (Qabs x) ltac:(lia)) as (k & Hk).
  { exists n. rewrite Habs, Z2Nat.id by lia. unfold x.
    unfold Qdiv. rewrite <- Qmult_assoc, (Qmult_comm (/ _)), Qmult_inv_r, Qmult_1_r.
    - reflexivity.
    - intros H. rewrite H in HpQ. discriminate. }
  rewrite Hk. eauto.
Qed.

(** *** The rendering of a positive input *)

Lemma floor_log_spec (b : Z) (q : Q) :
  2 <= b -> (0 < q)%Q ->
  (inject_Z b ^ floor_log b q <= q)%Q
  /\ (q < inject_Z b ^ (floor_log b q + 1))%Q.
Proof.
  intros Hb Hpos. destruct (Qlt_le_dec q 1) as [Hlt|Hge].
  - apply floor_log_below_one; assumption.
  - destruct (floor_log_from_one b q Hb Hge) as (Hnonneg & Hlo & Hhi).
    rewrite <- !Zpower_Qpower by lia. split; assumption.
Qed.

(** The mantissa lies between 1 and 1024. *)
Lemma mantissa_range (q : Q) :
  (0 < q)%Q ->
  (1 <= q / inject_Z 1024 ^ floor_log 1024 q)%Q
  /\ (q / inject_Z 1024 ^ floor_log 1024 q < 1024)%Q.
Proof.
  intros Hpos. destruct (floor_log_spec 1024 q ltac:(lia) Hpos) as (Hlo & Hhi).
  assert (Hpow : (0 < inject_Z 1024 ^ floor_log 1024 q)%Q)
    by (apply Qpower_0_lt; reflexivity).
  split.
  - apply Qle_shift_div_l; [exact Hpow|]. rewrite Qmult_1_l. exact Hlo.
  - apply Qlt_shift_div_r; [exact Hpow|].
    rewrite Qpower_plus in Hhi by discriminate.
    rewrite Qmult_comm. exact Hhi.
Qed.

(** A positive input with at most 100 decimals is rendered as the mantissa
    rounded to [dm] decimals, printed as a number, a space, and what the unit
    lookup gives. *)
Lemma formatBytes_positive (q : Q) (decimals : option Z) :
  (0 < q)%Q ->
  (if default 2 decimals <? 0 then 0 else default 2 decimals) <= 100 ->
  let dm := if default 2 decimals <? 0 then 0 else default 2 decimals in
  let i := floor_log 1024 q in
  let n := Qfloor (q / inject_Z 1024 ^ i * inject_Z (10 ^ dm) + (1 # 2)) in
  exists mantissa,
    Number_toString (Fin (inject_Z n / inject_Z (10 ^ dm))) = Value mantissa
    /\ formatBytes (Fin q) decimals
       = Value (mantissa +:+ " " +:+ string_or_undefined (index sizes (Int i))).
Proof.
  intros Hpos Hdm dm i n.
  assert (Hdm0 : 0 <= dm)
    by (subst dm; destruct (Z.ltb_spec (default 2 decimals) 0); lia).
  destruct (mantissa_range q Hpos) as (Hm1 & Hm2). fold i in Hm1, Hm2.
  set (m := (q / inject_Z 1024 ^ i)%Q) in *.
  assert (Hmpos : (0 < m)%Q) by (eapply Qlt_le_trans; [|exact Hm1]; reflexivity).
  assert (Hp : 0 < 10 ^ dm) by (apply Z.pow_pos_nonneg; lia).
  assert (HpQ : (0 < inject_Z (10 ^ dm))%Q) by (rewrite <- (Zlt_Qlt 0); exact Hp).
  assert (Hnlo : 10 ^ dm <= n).
  { apply Z.le_trans with (Qfloor (inject_Z (10 ^ dm))); [rewrite Qfloor_Z; lia|].
    apply Qfloor_resp_le.
    assert (H1 : (1 * inject_Z (10 ^ dm) <= m * inject_Z (10 ^ dm))%Q)
      by (apply Qmult_le_compat_r; [exact Hm1|apply Qlt_le_weak; exact HpQ]).
    rewrite Qmult_1_l in H1.
    assert (H2 : (m * inject_Z (10 ^ dm) + 0 <= m * inject_Z (10 ^ dm) + (1 # 2))%Q)
      by (apply Qplus_le_compat; [apply Qle_refl|discriminate]).
    rewrite Qplus_0_r in H2. exact (Qle_trans _ _ _ H1 H2). }
  assert (Hnhi : n < 1024 * 10 ^ dm + 1).
  { rewrite Zlt_Qlt. eapply Qle_lt_trans; [apply Qfloor_le|].
    rewrite inject_Z_plus, inject_Z_mult.
    apply Qplus_lt_le_compat; [|discriminate].
    apply Qmult_lt_compat_r; [exact HpQ|exact Hm2]. }
  destruct (Number_toString_decimal n dm ltac:(lia) ltac:(lia) ltac:(lia))
    as (mantissa & Hmantissa).
  exists mantissa. split; [exact Hmantissa|].
  rewrite (formatBytes_nonzero q decimals (positive_not_zero q Hpos)).
  rewrite (unit_index_positive q Hpos). fold i. fold dm.
  assert (Hdiv : div (Fin q) (Math_pow 1024 (Int i)) = Fin m).
  { unfold div, Math_pow.
    rewrite (positive_not_zero (inject_Z 1024 ^ i)) by (apply Qpower_0_lt; reflexivity).
    reflexivity. }
  rewrite Hdiv.
  assert (Hfixed : toFixed (Fin m) dm = Value (decimal_numeral n (Z.to_nat dm))).
  { unfold toFixed.
    destruct (Z.ltb_spec dm 0); [lia|]. destruct (Z.ltb_spec 100 dm); [lia|].
    simpl orb. cbv iota. rewrite (positive_not_neg m Hmpos).
    assert (Habs : (Qabs m == m)%Q) by (apply Qabs_pos, Qlt_le_weak, Hmpos).
    assert (Hbig : Qle_bool (inject_Z (10 ^ 21)) (Qabs m) = false).
    { destruct (Qle_bool (inject_Z (10 ^ 21)) (Qabs m)) eqn:Hle; [|reflexivity].
      apply Qle_bool_iff in Hle. rewrite Habs in Hle. exfalso.
      apply (Qlt_not_le _ _ Hm2). eapply Qle_trans; [|exact Hle]. discriminate. }
    rewrite Hbig. cbv zeta.
    rewrite (Qfloor_comp _ (m * inject_Z (10 ^ dm) + (1 # 2))) by (rewrite Habs; reflexivity).
    reflexivity. }
  rewrite Hfixed. cbn [mbind result_bind].
  rewrite (parseFloat_decimal_numeral n (Z.to_nat dm)) by lia.
  rewrite (Number_toString_comp _ (inject_Z n / inject_Z (10 ^ dm))).
  - rewrite Hmantissa. reflexivity.
  - rewrite Z2Nat.id by lia. change (0 - dm) with (- dm).
    rewrite Qpower_opp, <- Zpower_Qpower by lia. reflexivity.
Qed.

(** * Further properties *)

Import Trace.

(** ** Every action, whatever the outside answers *)


(** X2: the loading indicator never leaks: a run shows at most one loading
    toast, dismisses as many as it shows, and when it shows one the dismissal
    is the last thing it does. *)
Theorem loading_toast_is_dismissed (env : Env) (a : Action) (w : World) :
  let log := (run env a w).2 in
  (length (loading_toasts log) <= 1)%nat
  /\ length (toast_dismissals log) = length (loading_toasts log)
  /\ (loading_toasts log = [] \/ last log = Some ToastDismiss).
Proof.
  destruct (run env a w) as [[end_ w'] log] eqn:Hrun. simpl.
  destruct a; unfold_handler; split_run Hrun; injection Hrun as <- <- <-;
    (split; [simpl; lia|]; split; [reflexivity|]);
    first [left; reflexivity | right; reflexivity].
Qed.

(** X3: the busy flags are released on every exit path: once an action has
    started (it has shown its loading toast) and the timer it may have queued
    has run, [changing] is unset after an action of the sync menu and
    [saving] after an action of the link panel; the other flag is as it
    was. *)
Theorem busy_flags_are_released (env : Env) (a : Action) (w : World) :
  timers w = [] ->
  loading_toasts (run env a w).2 ≠ [] ->
  let w' := run_timers (run env a w).1.2 in
  changing w' = match a with
                | DoTogglePause _ | DoDeleteSync _ => false
                | _ => changing w
                end
  /\ saving w' = match a with
                 | DoToggleStatus _ _ | DoSave _ => false
                 | _ => saving w
                 end
  /\ timers w' = [].
Proof.
  destruct (run env a w) as [[end_ w'] log] eqn:Hrun. simpl.
  intros Htimers Hstarted. destruct w. simpl in Htimers. subst.
  destruct a; unfold_handler; split_run Hrun; injection Hrun as <- <- <-;
    try (exfalso; apply Hstarted; reflexivity); repeat split.
Qed.

Lemma busy_flags_are_released_witness :
  let w' := run_timers
              (run (Samples.env_rejecting Samples.boom)
                 (DoToggleStatus Samples.report_item true) Samples.world).1.2 in
  changing w' = false /\ saving w' = false /\ timers w' = [].
Proof.
  apply (busy_flags_are_released (Samples.env_rejecting Samples.boom)
           (DoToggleStatus Samples.report_item true) Samples.world).
  - reflexivity.
  - vm_compute. discriminate.
Defined.

(** X4: a declined prompt ends the action there: when the confirmation of a
    delete is not given, or the name input of a new directory is cancelled,
    the world is left as it is and nothing but the prompt is shown; no
    request is sent. *)
Theorem declined_prompt_is_noop (env : Env) (a : Action) (w : World) :
  declined env a ->
  run env a w = (Normal tt, w, prompt a).
Proof.
  destruct a; simpl; intros Hdeclined; try contradiction; unfold_handler;
    rewrite Hdeclined; reflexivity.
Qed.

Lemma declined_prompt_is_noop_witness :
  run (mkEnv (fun _ => None) Samples.ascii_toLowerCase Samples.fresh_item None
         false (mkInputResponse true "x"))
      (DoDeleteSync Samples.music_pair) Samples.world
  = (Normal tt, Samples.world, [ConfirmDialog]).
Proof.
  apply (declined_prompt_is_noop _ (DoDeleteSync Samples.music_pair) Samples.world).
  reflexivity.
Defined.



(** X6: no request follows a rejected one: in the answers to the requests
    of a run, every answer but the last is a success. *)
Theorem rejection_is_last_request (env : Env) (a : Action) (w : World) :
  Forall (fun r => r = None) (removelast (responses (run env a w).2)).
Proof.
  destruct (run env a w) as [[end_ w'] log] eqn:Hrun. simpl.
  destruct a; unfold_handler; split_run Hrun; injection Hrun as <- <- <-;
    simpl; repeat constructor.
Qed.


(** ** The sync context menu, further *)

Lemma NoDup_fmap_filter {A B : Type} (f : A -> B) (P : A -> Prop)
    `{forall x, Decision (P x)} (l : list A) :
  NoDup (f <$> l) -> NoDup (f <$> filter P l).
Proof.
  induction l as [|x l IH]; [intros; constructor|].
  rewrite fmap_cons, NoDup_cons. intros (Hx & Hnd).
  rewrite filter_cons. destruct (decide (P x)); [|auto].
  rewrite fmap_cons, NoDup_cons. split; [|auto].
  intros Hin. apply Hx. apply list_elem_of_fmap in Hin as (y & -> & Hy).
  apply list_elem_of_filter in Hy as (_ & Hy). apply list_elem_of_fmap. eauto.
Qed.

Lemma uuid_fmap_map (f : SyncPair -> SyncPair) (l : list SyncPair) :
  (forall pair, uuid (f pair) = uuid pair) ->
  uuid <$> map f l = uuid <$> l.
Proof.
  intros Hf. induction l as [|p l IH]; [reflexivity|].
  simpl. rewrite Hf. f_equal. exact IH.
Qed.

(** The collection after a toggle whose requests resolve. *)
Lemma togglePause_resolved (env : Env) (sync cfg : SyncPair) (w : World) :
  SyncContextMenu.syncConfig_of sync (desktopConfig w) = Some cfg ->
  (forall p, respond env (SyncUpdatePaused (uuid sync) p) = None) ->
  respond env (SyncResetCache (uuid sync)) = None ->
  exists w' log,
    run env (DoTogglePause sync) w = (Normal tt, w', log)
    /\ desktopConfig w'
       = mkDesktopConfig
           (mkSyncConfig
              (map (fun pair => if decide (uuid pair = uuid sync)
                                then mkSyncPair (uuid pair) (negb (paused cfg)) (pairRest pair)
                                else pair)
                   (syncPairs (syncConfig (desktopConfig w))))
              (syncConfigRest (syncConfig (desktopConfig w))))
           (desktopConfigRest (desktopConfig w)).
Proof.
  intros Hcfg Hpaused Hreset. unfold run, perform. rewrite Hcfg.
  unfold_handler. rewrite Hpaused, Hreset. simpl.
  eexists _, _. split; reflexivity.
Qed.

(** X8: the mirror keeps one record per identifier: if no two sync pairs
    share a uuid before an action, none do after it, whatever the action and
    whatever the requests answer. *)
Theorem sync_uuids_stay_unique (env : Env) (a : Action) (w : World) :
  NoDup (uuid <$> syncPairs (syncConfig (desktopConfig w))) ->
  NoDup (uuid <$> syncPairs (syncConfig (desktopConfig (run env a w).1.2))).
Proof.
  destruct (run env a w) as [[end_ w'] log] eqn:Hrun. simpl.
  intros Hnd. destruct w.
  destruct a; unfold_handler; split_run Hrun; injection Hrun as <- <- <-;
    simpl in *; try exact Hnd.
  - rewrite uuid_fmap_map; [exact Hnd|].
    intros pair. destruct (decide _); reflexivity.
  - apply NoDup_fmap_filter. exact Hnd.
Qed.

Lemma sync_uuids_stay_unique_witness :
  NoDup (uuid <$> syncPairs (syncConfig (desktopConfig
           (run Samples.env_ok (DoDeleteSync Samples.music_pair) Samples.world).1.2))).
Proof.
  apply (sync_uuids_stay_unique Samples.env_ok (DoDeleteSync Samples.music_pair)
           Samples.world).
  apply (bool_decide_unpack _). vm_compute. exact I.
Defined.

(** X9: pausing and resuming undo each other: with the record loaded and
    one record per identifier, two toggles in a row whose requests resolve
    (the menu being rendered again in between) give back the desktop
    configuration of the start, and the second request carries the flag of
    the start. *)
Theorem togglePause_twice_restores (env : Env) (sync cfg : SyncPair) (w : World) :
  SyncContextMenu.syncConfig_of sync (desktopConfig w) = Some cfg ->
  NoDup (uuid <$> syncPairs (syncConfig (desktopConfig w))) ->
  (forall p, respond env (SyncUpdatePaused (uuid sync) p) = None) ->
  respond env (SyncResetCache (uuid sync)) = None ->
  exists w1 log1 w2 log2,
    run env (DoTogglePause sync) w = (Normal tt, w1, log1)
    /\ run env (DoTogglePause sync) w1 = (Normal tt, w2, log2)
    /\ desktopConfig w2 = desktopConfig w
    /\ remote_calls log2
       = [SyncUpdatePaused (uuid sync) (paused cfg); SyncResetCache (uuid sync)].
Proof.
  intros Hcfg Hnd Hpaused Hreset.
  destruct (head_filter_split uuid _ _ _ Hcfg) as (before & after & Hsplit & Hk & Hbefore).
  pose proof Hnd as Hnd'. rewrite Hsplit in Hnd'.
  destruct (NoDup_keys_split uuid _ _ _ Hnd') as (_ & Hafter). rewrite Hk in Hafter.
  assert (Hnone : forall l, Forall (fun y => uuid y ≠ uuid sync) l ->
            filter (fun pair => uuid pair = uuid sync) l = []).
  { induction 1 as [|y l Hy _ IH]; [reflexivity|].
    rewrite filter_cons. destruct (decide (uuid y = uuid sync)); [contradiction|assumption]. }
  assert (Hmap : forall b c, uuid c = uuid sync ->
            map (fun pair => if decide (uuid pair = uuid sync)
                   then mkSyncPair (uuid pair) b (pairRest pair) else pair)
                (before ++ c :: after)
            = before ++ mkSyncPair (uuid c) b (pairRest c) :: after).
  { intros b c Hc. rewrite map_app. simpl.
    rewrite (map_other_keys uuid _ _ before Hbefore), (map_other_keys uuid _ _ after Hafter).
    destruct (decide (uuid c = uuid sync)); [reflexivity|contradiction]. }
  destruct (togglePause_resolved env sync cfg w Hcfg Hpaused Hreset)
    as (w1 & log1 & Hrun1 & Hdc1).
  rewrite Hsplit, (Hmap _ cfg Hk) in Hdc1.
  set (cfg1 := mkSyncPair (uuid cfg) (negb (paused cfg)) (pairRest cfg)) in *.
  assert (Hcfg1 : SyncContextMenu.syncConfig_of sync (desktopConfig w1) = Some cfg1).
  { unfold SyncContextMenu.syncConfig_of. rewrite Hdc1. simpl.
    rewrite filter_app, (Hnone before Hbefore), filter_cons. simpl.
    destruct (decide (uuid cfg = uuid sync)); [reflexivity|contradiction]. }
  destruct (togglePause_resolved env sync cfg1 w1 Hcfg1 Hpaused Hreset)
    as (w2 & log2 & Hrun2 & Hdc2).
  exists w1, log1, w2, log2. split; [exact Hrun1|]. split; [exact Hrun2|]. split.
  - rewrite Hdc2, Hdc1. cbn [syncConfig syncPairs syncConfigRest desktopConfigRest].
    rewrite (Hmap _ cfg1 Hk). subst cfg1. cbn [uuid paused pairRest].
    rewrite negb_involutive.
    replace (mkSyncPair (uuid cfg) (paused cfg) (pairRest cfg)) with cfg
      by (destruct cfg; reflexivity).
    rewrite <- Hsplit.
    destruct (desktopConfig w) as [[pairs rest] rest']. reflexivity.
  - revert Hrun2. unfold run, perform. rewrite Hcfg1. unfold_handler.
    rewrite Hpaused, Hreset. simpl. intros H. injection H as _ <-.
    rewrite negb_involutive. reflexivity.
Qed.

Lemma togglePause_twice_restores_witness :
  exists w1 log1 w2 log2,
    run Samples.env_ok (DoTogglePause Samples.music_pair) Samples.world
    = (Normal tt, w1, log1)
    /\ run Samples.env_ok (DoTogglePause Samples.music_pair) w1 = (Normal tt, w2, log2)
    /\ desktopConfig w2 = desktopConfig Samples.world
    /\ remote_calls log2 = [SyncUpdatePaused "s-2" true; SyncResetCache "s-2"].
Proof.
  apply (togglePause_twice_restores Samples.env_ok Samples.music_pair
           Samples.music_pair Samples.world).
  - reflexivity.
  - apply (bool_decide_unpack _). vm_compute. exact I.
  - intros p. reflexivity.
  - reflexivity.
Defined.

(** X10: a deleted sync is gone for the menu: after a confirmed delete
    whose request resolves no record of the sync is loaded, so the menu
    renders nothing, a later toggle is a no-op that sends nothing, and a
    second delete leaves the collection as the first one left it. *)
Theorem deleteSync_then_nothing_left (env env' : Env) (sync : SyncPair) (w : World) :
  showConfirmDialog env = true ->
  respond env (SyncUpdateRemoved (uuid sync) true) = None ->
  exists w' log,
    run env (DoDeleteSync sync) w = (Normal tt, w', log)
    /\ SyncContextMenu.syncConfig_of sync (desktopConfig w') = None
    /\ SyncContextMenuView.render sync
         (SyncContextMenu.syncConfig_of sync (desktopConfig w')) = None
    /\ run env' (DoTogglePause sync) w' = (Normal tt, w', [])
    /\ desktopConfig (run env' (DoDeleteSync sync) w').1.2 = desktopConfig w'.
Proof.
  intros Hconfirm Hremoved.
  set (pairs := syncPairs (syncConfig (desktopConfig w))).
  destruct (run env (DoDeleteSync sync) w) as [[end1 w'] log] eqn:Hrun.
  assert (Hres : end1 = Normal tt
            /\ desktopConfig w'
               = mkDesktopConfig
                   (mkSyncConfig (filter (fun pair => uuid pair ≠ uuid sync) pairs)
                      (syncConfigRest (syncConfig (desktopConfig w))))
                   (desktopConfigRest (desktopConfig w))).
  { revert Hrun. unfold_handler. rewrite Hconfirm, Hremoved. simpl.
    intros H. injection H as <- <- <-. split; reflexivity. }
  destruct Hres as (-> & Hdc).
  assert (Hall : Forall (fun pair => uuid pair ≠ uuid sync)
                   (filter (fun pair => uuid pair ≠ uuid sync) pairs)).
  { apply Forall_forall. intros p Hp. apply list_elem_of_filter in Hp as (Hp & _).
    exact Hp. }
  assert (Hnone : filter (fun pair => uuid pair = uuid sync)
                    (filter (fun pair => uuid pair ≠ uuid sync) pairs) = []).
  { revert Hall. generalize (filter (fun pair => uuid pair ≠ uuid sync) pairs).
    induction 1 as [|y l Hy _ IH]; [reflexivity|].
    rewrite filter_cons. destruct (decide (uuid y = uuid sync)); [contradiction|assumption]. }
  pose proof (filter_other_keys uuid _ _ Hall) as Hsame.
  assert (Hcfg : SyncContextMenu.syncConfig_of sync (desktopConfig w') = None).
  { unfold SyncContextMenu.syncConfig_of. rewrite Hdc. simpl. rewrite Hnone. reflexivity. }
  exists w', log. split; [reflexivity|]. split; [exact Hcfg|].
  split; [rewrite Hcfg; reflexivity|]. split.
  - unfold run, perform. rewrite Hcfg. reflexivity.
  - destruct (run env' (DoDeleteSync sync) w') as [[end2 w2] log2] eqn:Hrun2.
    unfold_handler. split_run Hrun2; injection Hrun2 as <- <- <-; simpl;
      try reflexivity; rewrite Hdc; simpl; rewrite Hsame; reflexivity.
Qed.

Lemma deleteSync_then_nothing_left_witness :
  exists w' log,
    run Samples.env_ok (DoDeleteSync Samples.music_pair) Samples.world
    = (Normal tt, w', log)
    /\ SyncContextMenu.syncConfig_of Samples.music_pair (desktopConfig w') = None
    /\ run Samples.env_ok (DoTogglePause Samples.music_pair) w' = (Normal tt, w', []).
Proof.
  destruct (deleteSync_then_nothing_left Samples.env_ok Samples.env_ok
              Samples.music_pair Samples.world eq_refl eq_refl)
    as (w' & log & Hrun & Hcfg & _ & Htoggle & _).
  exists w', log. split; [exact Hrun|]. split; [exact Hcfg|exact Htoggle].
Defined.

(** X11: the listeners on the event bridge answer only to their own sync:
    an event that carries another uuid changes nothing and shows nothing,
    and an event that carries the uuid of the sync runs the handler. *)
Theorem listeners_filter_by_uuid (env : Env) (sync : SyncPair)
    (syncConfig : option SyncPair) (uuid' : string) (w : World) :
  uuid' ≠ uuid sync ->
  SyncContextMenu.deleteSyncListener env sync uuid' w [] = (Normal tt, w, [])
  /\ SyncContextMenu.toggleSyncPauseListener env sync syncConfig uuid' w []
     = (Normal tt, w, [])
  /\ SyncContextMenu.deleteSyncListener env sync (uuid sync) w []
     = SyncContextMenu.deleteSync env sync w []
  /\ SyncContextMenu.toggleSyncPauseListener env sync syncConfig (uuid sync) w []
     = SyncContextMenu.togglePause env sync syncConfig w [].
Proof.
  intros Hne.
  unfold SyncContextMenu.deleteSyncListener, SyncContextMenu.toggleSyncPauseListener.
  repeat split.
  - unfold function, mbind, M_bind, return_. destruct (decide (uuid' ≠ uuid sync));
      [reflexivity|contradiction].
  - unfold function, mbind, M_bind, return_. destruct (decide (uuid' ≠ uuid sync));
      [reflexivity|contradiction].
  - unfold function at 1. unfold mbind, M_bind, mret, M_ret.
    destruct (decide (uuid sync ≠ uuid sync)); [contradiction|].
    destruct (SyncContextMenu.deleteSync env sync w []) as [[c w'] l] eqn:Hrun.
    revert Hrun. unfold_handler. intros Hrun. split_run Hrun;
      injection Hrun as <- <- <-; reflexivity.
  - unfold function at 1. unfold mbind, M_bind, mret, M_ret.
    destruct (decide (uuid sync ≠ uuid sync)); [contradiction|].
    destruct (SyncContextMenu.togglePause env sync syncConfig w []) as [[c w'] l] eqn:Hrun.
    revert Hrun. unfold_handler. intros Hrun. split_run Hrun;
      injection Hrun as <- <- <-; reflexivity.
Qed.

Lemma listeners_filter_by_uuid_witness :
  SyncContextMenu.deleteSyncListener Samples.env_ok Samples.music_pair "s-1"
    Samples.world []
  = (Normal tt, Samples.world, []).
Proof.
  apply (listeners_filter_by_uuid Samples.env_ok Samples.music_pair None "s-1"
           Samples.world).
  discriminate.
Defined.

(** X12: the menu entry says what a click does: with the record loaded, the
    first entry is labelled resume exactly when the request of a click asks
    to unpause, and after a toggle whose requests resolve the entry shows the
    other label. *)
Theorem menu_label_matches_toggle (env : Env) (sync cfg : SyncPair) (w : World) :
  SyncContextMenu.syncConfig_of sync (desktopConfig w) = Some cfg ->
  (forall p, respond env (SyncUpdatePaused (uuid sync) p) = None) ->
  respond env (SyncResetCache (uuid sync)) = None ->
  let label_for (p : bool) :=
    if p then "contextMenus.syncs.resume" else "contextMenus.syncs.pause" in
  exists w' log,
    run env (DoTogglePause sync) w = (Normal tt, w', log)
    /\ SyncContextMenuView.render sync
         (SyncContextMenu.syncConfig_of sync (desktopConfig w))
       = Some [SyncContextMenuView.mkEntry (label_for (paused cfg)) (DoTogglePause sync);
               SyncContextMenuView.mkEntry "contextMenus.syncs.delete" (DoDeleteSync sync)]
    /\ head (remote_calls log)
       = Some (SyncUpdatePaused (uuid sync) (negb (paused cfg)))
    /\ SyncContextMenuView.label
         <$> (SyncContextMenuView.render sync
                (SyncContextMenu.syncConfig_of sync (desktopConfig w')) ≫= head)
       = Some (label_for (negb (paused cfg))).
Proof.
  intros Hcfg Hpaused Hreset label_for.
  destruct (head_filter_split uuid _ _ _ Hcfg) as (before & after & Hsplit & Hk & Hbefore).
  destruct (togglePause_resolved env sync cfg w Hcfg Hpaused Hreset)
    as (w' & log & Hrun & Hdc).
  exists w', log. split; [exact Hrun|]. split; [rewrite Hcfg; reflexivity|]. split.
  - revert Hrun. unfold run, perform. rewrite Hcfg. unfold_handler.
    rewrite Hpaused, Hreset. simpl. intros H. injection H as _ <-. reflexivity.
  - assert (Hcfg' : SyncContextMenu.syncConfig_of sync (desktopConfig w')
                    = Some (mkSyncPair (uuid cfg) (negb (paused cfg)) (pairRest cfg))).
    { unfold SyncContextMenu.syncConfig_of. rewrite Hdc. simpl. rewrite Hsplit.
      rewrite map_app, (map_other_keys uuid _ _ before Hbefore). simpl.
      destruct (decide (uuid cfg = uuid sync)); [|contradiction].
      rewrite filter_app, filter_cons. simpl.
      destruct (decide (uuid cfg = uuid sync)); [|contradiction].
      replace (filter (fun pair => uuid pair = uuid sync) before) with (@nil SyncPair);
        [reflexivity|].
      symmetry. clear -Hbefore. induction Hbefore as [|y l Hy _ IH]; [reflexivity|].
      rewrite filter_cons. destruct (decide (uuid y = uuid sync)); [contradiction|assumption]. }
    rewrite Hcfg'. reflexivity.
Qed.

Lemma menu_label_matches_toggle_witness :
  exists w' log,
    run Samples.env_ok (DoTogglePause Samples.music_pair) Samples.world
    = (Normal tt, w', log)
    /\ head (remote_calls log) = Some (SyncUpdatePaused "s-2" false)
    /\ SyncContextMenuView.label
         <$> (SyncContextMenuView.render Samples.music_pair
                (SyncContextMenu.syncConfig_of Samples.music_pair (desktopConfig w'))
              ≫= head)
       = Some "contextMenus.syncs.pause".
Proof.
  destruct (menu_label_matches_toggle Samples.env_ok Samples.music_pair
              Samples.music_pair Samples.world eq_refl (fun _ => eq_refl) eq_refl)
    as (w' & log & Hrun & _ & Hcall & Hlabel).
  exists w', log. split; [exact Hrun|]. split; [exact Hcall|exact Hlabel].
Defined.

(** ** The drive listing, further *)

(** X13: the listing keeps its records apart: if no two listed items share
    an identifier, or no two share a lower-cased name, before an action, the
    same holds after it, whatever the action and whatever the requests
    answer. *)
Theorem drive_items_stay_unique (env : Env) (a : Action) (w : World)
    (key : DriveCloudItem -> string) :
  key = itemUUID \/ key = (fun it => toLowerCase env (name it)) ->
  NoDup (key <$> items w) ->
  NoDup (key <$> items (run env a w).1.2).
Proof.
  destruct (run env a w) as [[end_ w'] log] eqn:Hrun. simpl.
  intros Hkey Hnd. destruct w.
  destruct a; unfold_handler; split_run Hrun; injection Hrun as <- <- <-;
    simpl in *; try exact Hnd; try (apply NoDup_fmap_filter; exact Hnd).
  rewrite fmap_app. apply NoDup_app. split; [apply NoDup_fmap_filter; exact Hnd|].
  split; [|apply NoDup_singleton].
  intros k Hk Hin. apply list_elem_of_fmap in Hk as (y & -> & Hy).
  apply list_elem_of_filter in Hy as ((Huuid & Hname) & _).
  apply list_elem_of_singleton in Hin.
  destruct Hkey as [-> | ->]; [exact (Huuid Hin)|exact (Hname Hin)].
Qed.

Lemma drive_items_stay_unique_witness :
  NoDup (itemUUID <$> items
           (run Samples.env_ok (DoCreateDirectory "root") Samples.world).1.2).
Proof.
  apply (drive_items_stay_unique Samples.env_ok (DoCreateDirectory "root")
           Samples.world itemUUID).
  - left. reflexivity.
  - apply (bool_decide_unpack _). vm_compute. exact I.
Defined.

(** X14: the name cache learns the new directory: after a create whose
    request resolves, the cache maps the uuid of the created item to the name
    that was typed, and every other entry of the cache is as it was. *)
Theorem createDirectory_fills_cache (env : Env) (parent : string) (w : World) :
  cancelled (showInputDialog env) = false ->
  respond env (CreateDirectory (value (showInputDialog env)) parent) = None ->
  let item := created env (value (showInputDialog env)) parent in
  let cache' := directoryUUIDToNameCache (run env (DoCreateDirectory parent) w).1.2 in
  cache' !! itemUUID item = Some (value (showInputDialog env))
  /\ forall k, k ≠ itemUUID item -> cache' !! k = directoryUUIDToNameCache w !! k.
Proof.
  intros Hcancelled Hcreated item. unfold_handler.
  rewrite Hcancelled, Hcreated. simpl. fold item. split.
  - apply lookup_insert_eq.
  - intros k Hk. apply lookup_insert_ne. congruence.
Qed.

Lemma createDirectory_fills_cache_witness :
  directoryUUIDToNameCache
    (run Samples.env_ok (DoCreateDirectory "root") Samples.world).1.2 !! "d-9"
  = Some "reports".
Proof.
  exact (proj1 (createDirectory_fills_cache Samples.env_ok "root" Samples.world
                  eq_refl eq_refl)).
Defined.

(** X15: opening the menu clears the selection and nothing else: every item
    is unselected afterwards, the items keep their identifier, name and other
    fields in the same order, no event is shown, doing it again changes
    nothing, and closing the menu changes nothing. *)
Theorem onOpenChange_clears_selection (w : World) :
  let r := DriveListContextMenuOpen.onOpenChange true w [] in
  r.1.1 = Normal tt
  /\ r.2 = []
  /\ Forall (fun it => selected it = false) (items r.1.2)
  /\ (fun it => (itemUUID it, name it, itemRest it)) <$> items r.1.2
     = (fun it => (itemUUID it, name it, itemRest it)) <$> items w
  /\ mirror r.1.2
     = (desktopConfig w, selectedSync w, items r.1.2, directoryUUIDToNameCache w,
        queryData w, status w, open w)
  /\ DriveListContextMenuOpen.onOpenChange true r.1.2 [] = (Normal tt, r.1.2, [])
  /\ DriveListContextMenuOpen.onOpenChange false w [] = (Normal tt, w, []).
Proof.
  unfold DriveListContextMenuOpen.onOpenChange, setItems, modify. simpl.
  split; [reflexivity|]. split; [reflexivity|]. split; [|split; [|split; [reflexivity|split]]].
  - induction (items w) as [|it l IH]; constructor; [reflexivity|exact IH].
  - induction (items w) as [|it l IH]; [reflexivity|]. simpl. f_equal. exact IH.
  - do 2 f_equal. destruct w. simpl. f_equal.
    induction items0 as [|it l IH]; [reflexivity|]. simpl. f_equal. exact IH.
  - reflexivity.
Qed.

(** ** The public-link panel, further *)

(** X16: disabling a link that does not exist sends nothing: with the
    status loaded, no link and [saving] unset, switching off shows and
    dismisses the loading toast and sends no request; the listing and the
    panel stay as they are, also under a "links" location. *)
Theorem disable_without_link_sends_nothing (env : Env) (item : DriveCloudItem)
    (w : World) :
  status w = Some NoLink ->
  saving w = false ->
  exists w',
    run env (DoToggleStatus item false) w
    = (Normal tt, w', [LoadingToast; ToastDismiss])
    /\ mirror w' = mirror w.
Proof.
  intros Hst Hsaving. unfold_handler. rewrite Hst, Hsaving. simpl.
  eexists. split; reflexivity.
Qed.

Lemma disable_without_link_sends_nothing_witness :
  exists w',
    run Samples.env_ok (DoToggleStatus Samples.report_item false)
      (mkWorld (desktopConfig Samples.world) None false (items Samples.world) ∅
         "/drive/links" (Some NoLink) (Some NoLink) true false EmptyString
         "never" true [])
    = (Normal tt, w', [LoadingToast; ToastDismiss])
    /\ items w' = [Samples.report_item; Samples.notes_item].
Proof.
  destruct (disable_without_link_sends_nothing Samples.env_ok Samples.report_item
              (mkWorld (desktopConfig Samples.world) None false (items Samples.world) ∅
                 "/drive/links" (Some NoLink) (Some NoLink) true false EmptyString
                 "never" true []) eq_refl eq_refl)
    as (w' & Hrun & Hmirror).
  exists w'. split; [exact Hrun|].
  injection Hmirror as _ _ Hitems _ _ _ _. exact Hitems.
Defined.

(** X18: what is staged is what is saved: after the password, the
    expiration and the download switch have been edited, which sends
    nothing, a save on an existing link sends first the edit request for the
    item and the link with exactly those values, the password only when it is
    not empty. *)
Theorem save_sends_staged_edits (env : Env) (item : DriveCloudItem)
    (st : DirLinkStatusResponse) (password expiration : string) (downloadBtn : bool)
    (w : World) :
  status w = Some st ->
  exists_ st = true ->
  saving w = false ->
  exists w1,
    (PublicLinkDirectoryEdits.onPasswordChange password ;;
     PublicLinkDirectoryEdits.onExpirationChange expiration ;;
     PublicLinkDirectoryEdits.toggleDownloadButton downloadBtn) w []
    = (Normal tt, w1, [])
    /\ mirror w1 = mirror w
    /\ head (remote_calls (run env (DoSave item) w1).2)
       = Some (EditPublicLink "directory" (itemUUID item) (statusUUID st)
                 downloadBtn expiration
                 (if decide (password = EmptyString) then None else Some password))
    /\ PublicLinkDirectoryEdits.savePublicLinkListener env item w1 []
       = run env (DoSave item) w1.
Proof.
  intros Hst Hexists Hsaving.
  unfold PublicLinkDirectoryEdits.onPasswordChange,
    PublicLinkDirectoryEdits.onExpirationChange,
    PublicLinkDirectoryEdits.toggleDownloadButton,
    PublicLinkDirectoryEdits.setPassword, PublicLinkDirectoryEdits.setExpiration,
    PublicLinkDirectoryEdits.setDownloadBtn,
    PublicLinkDirectoryEdits.savePublicLinkListener.
  unfold_handler. simpl.
  eexists. split; [reflexivity|]. split; [reflexivity|]. split; [|reflexivity].
  simpl. rewrite Hst, Hsaving, Hexists. simpl.
  assert (Hpw : (if (0 <? String.length password)%nat then Some password else None)
                = (if decide (password = EmptyString) then None else Some password)).
  { destruct password; reflexivity. }
  rewrite Hpw.
  destruct (respond env _); [reflexivity|]. simpl.
  destruct (respond env _); [reflexivity|]. simpl.
  destruct (fetched env); reflexivity.
Qed.

Lemma save_sends_staged_edits_witness :
  exists w1,
    (PublicLinkDirectoryEdits.onPasswordChange "secret" ;;
     PublicLinkDirectoryEdits.onExpirationChange "7d" ;;
     PublicLinkDirectoryEdits.toggleDownloadButton false) Samples.world []
    = (Normal tt, w1, [])
    /\ head (remote_calls (run Samples.env_ok (DoSave Samples.report_item) w1).2)
       = Some (EditPublicLink "directory" "d-1" "l-1" false "7d" (Some "secret")).
Proof.
  destruct (save_sends_staged_edits Samples.env_ok Samples.report_item Samples.a_link
              "secret" "7d" false Samples.world eq_refl eq_refl eq_refl)
    as (w1 & Hstage & _ & Hcall & _).
  exists w1. split; [exact Hstage|exact Hcall].
Defined.

(** X19: an empty password is never sent: no request of any action carries
    the empty string as a password. *)
Theorem no_empty_password_is_sent (env : Env) (a : Action) (w : World)
    (type itemUUID' linkUUID' expiration : string) (enableDownload : bool) :
  EditPublicLink type itemUUID' linkUUID' enableDownload expiration (Some EmptyString)
  ∉ remote_calls (run env a w).2.
Proof.
  destruct (run env a w) as [[end_ w'] log] eqn:Hrun. simpl.
  intros Hin. destruct w.
  destruct a; unfold_handler; split_run Hrun; injection Hrun as <- <- <-;
    simpl in Hin;
    repeat (apply elem_of_cons in Hin as [Hin|Hin]; [try discriminate Hin|]);
    try (apply elem_of_nil in Hin; contradiction);
    injection Hin as _ _ _ _ _ Hpw; subst; discriminate.
Qed.

(** X20: the expiration selector cannot stage "30d" or "never": whichever
    entry is picked, the staged expiration is one of 1h, 6h, 1d, 3d, 7d and
    14d, and the entries that read "30d" and "never" stage "14d"; picking
    sends nothing. *)
Theorem selector_stages_at_most_14d (i : nat) (value text : string) (w : World) :
  PublicLinkDirectoryEdits.expirationItems !! i = Some (value, text) ->
  exists w',
    PublicLinkDirectoryEdits.selectExpiration i w [] = (Normal tt, w', [])
    /\ stagedExpiration w' = value
    /\ value ∈ ["1h"; "6h"; "1d"; "3d"; "7d"; "14d"]
    /\ (text = "30d" \/ text = "never" -> value = "14d")
    /\ mirror w' = mirror w.
Proof.
  intros Hi. unfold PublicLinkDirectoryEdits.selectExpiration. rewrite Hi.
  eexists. split; [reflexivity|]. split; [reflexivity|].
  do 8 (destruct i as [|i]; [injection Hi as <- <-;
    (split; [repeat constructor|split; [intros [H|H]; first [discriminate H|reflexivity]|reflexivity]])|]).
  discriminate Hi.
Qed.

Lemma selector_stages_at_most_14d_witness :
  exists w',
    PublicLinkDirectoryEdits.selectExpiration 7 Samples.world [] = (Normal tt, w', [])
    /\ stagedExpiration w' = "14d".
Proof.
  destruct (selector_stages_at_most_14d 7 "14d" "never" Samples.world eq_refl)
    as (w' & Hrun & Hstaged & _).
  exists w'. split; [exact Hrun|exact Hstaged].
Defined.

Import PublicLinkDirectoryKey.

(** ** The link key and the clipboard *)

Ltac unfold_key_handler :=
  unfold copyLink, decryptLinkKey, k_function, k_try_catch, k_report, k_emit,
    k_return, setDecryptedLinkKey, mbind, K_bind, mret, K_ret in *.

(** X21: the link is copied only when there is one to copy: [copyLink]
    writes to the clipboard exactly when the status is loaded with an
    existing link and the key has been decrypted, and then it writes the text
    of the link; it shows the success toast when the write is accepted and one
    error toast with the error's text when it is refused, never both; it
    never changes the decrypted key and never lets the error escape. *)
Theorem copyLink_copies_decrypted_link (env : KeyEnv)
    (status : option DirLinkStatusResponse) (key : string) :
  let r := copyLink env status key key [] in
  let ready := match status with
               | Some st => exists_ st && negb (String.length key =? 0)%nat
               | None => false
               end in
  r.1.1 = Normal tt
  /\ r.1.2 = key
  /\ clipboard_writes r.2
     = (if ready
        then [linkText env (default NoLink status) key]
        else [])
  /\ success_toasts r.2
     = (if ready
        then match writeText env (linkText env (default NoLink status) key) with
             | None => [t env "copiedToClipboard"]
             | Some _ => []
             end
        else [])
  /\ key_error_toasts r.2
     = (if ready
        then match writeText env (linkText env (default NoLink status) key) with
             | None => []
             | Some e => [error_text e]
             end
        else []).
Proof.
  unfold_key_handler.
  destruct status as [st|]; [|repeat split].
  destruct (exists_ st); [|repeat split].
  destruct (String.length key =? 0)%nat; [repeat split|].
  simpl. destruct (writeText env _); repeat split.
Qed.

(** X22: the key is replaced only by a decrypted one: [decryptLinkKey] asks
    the worker exactly when the status is loaded with an existing link; when
    the worker answers, the decrypted key becomes that answer and nothing is
    shown; when it fails, the key stays as it was and one error toast shows
    the error's text; without a link nothing happens. *)
Theorem decryptLinkKey_keeps_key_on_failure (env : KeyEnv)
    (status : option DirLinkStatusResponse) (key : string) :
  let r := decryptLinkKey env status key [] in
  r.1.1 = Normal tt
  /\ match status with
     | Some (Link u k x d p) =>
         match decryptDirectoryLinkKey env k with
         | inr decrypted =>
             r.1.2 = decrypted /\ r.2 = [DecryptDirectoryLinkKey k None]
         | inl e =>
             r.1.2 = key
             /\ r.2 = [DecryptDirectoryLinkKey k (Some e); KeyConsoleError e;
                       KeyErrorToast (error_text e)]
         end
     | _ => r.1.2 = key /\ r.2 = []
     end.
Proof.
  unfold_key_handler.
  destruct status as [[|u k x d p]|]; [repeat split| |repeat split].
  simpl. destruct (decryptDirectoryLinkKey env k); repeat split.
Qed.

(** The marker of a file link is replaced in the base address. *)
Example linkText_sample :
  linkText (mkKeyEnv (fun k => inr k) (fun _ => None) (fun s => s)
              "https://app.filen.io/#/d/")
    Samples.a_link "abc"
  = "https://app.filen.io/#/f/l-1#abc".
Proof. reflexivity. Qed.

(** X23: a key that was decrypted can be copied: after a decryption that
    the worker answers with a non-empty key, [copyLink] run with that key
    writes the link that ends with it. *)
Theorem decrypt_then_copy (env : KeyEnv) (u k x : string) (d : Z)
    (p : option string) (decrypted old : string) :
  decryptDirectoryLinkKey env k = inr decrypted ->
  decrypted ≠ EmptyString ->
  let key' := (decryptLinkKey env (Some (Link u k x d p)) old []).1.2 in
  key' = decrypted
  /\ clipboard_writes (copyLink env (Some (Link u k x d p)) key' key' []).2
     = [split_join_go 0 (PUBLIC_LINK_BASE_URL env) +:+ u +:+ "#" +:+ decrypted].
Proof.
  intros Hdec Hne. unfold_key_handler. simpl. rewrite Hdec. simpl.
  split; [reflexivity|].
  destruct decrypted as [|c rest]; [contradiction|]. simpl.
  destruct (writeText env _); reflexivity.
Qed.

Lemma decrypt_then_copy_witness :
  clipboard_writes
    (copyLink (mkKeyEnv (fun k => inr ("plain-" +:+ k)) (fun _ => None) (fun s => s)
                 "https://app.filen.io/#/d/")
       (Some Samples.a_link) "plain-key" "plain-key" []).2
  = ["https://app.filen.io/#/f/l-1#plain-key"].
Proof.
  exact (proj2 (decrypt_then_copy
                  (mkKeyEnv (fun k => inr ("plain-" +:+ k)) (fun _ => None)
                     (fun s => s) "https://app.filen.io/#/d/")
                  "l-1" "key" "never" 1 None "plain-key" EmptyString eq_refl
                  ltac:(discriminate))).
Defined.

(** ** Utilities, further *)

(** X24: on whole timestamps the rule of [convertTimestampToMs] is a
    threshold: with a positive clock, a timestamp [t] comes back unchanged
    when it is negative or above 2/1001 of the clock, and multiplied by 1000
    otherwise; the result is [t] or [1000 t]. *)
Theorem convertTimestampToMs_threshold (now t : Z) :
  0 < now ->
  convertTimestampToMs now (Fin (inject_Z t))
  = Fin (inject_Z (if (t <? 0) || (2 * now <? 1001 * t) then t else t * 1000)).
Proof.
  intros Hnow. rewrite convertTimestampToMs_Fin.
  rewrite <- inject_Z_mult, Qfloor_Z.
  destruct (Qlt_bool _ _) eqn:Hlt.
  - apply Qlt_bool_iff in Hlt. rewrite !Qabs_sub_inject_Z, <- Zlt_Qlt in Hlt.
    destruct (Z.ltb_spec t 0); [reflexivity|].
    destruct (Z.ltb_spec (2 * now) (1001 * t)); [reflexivity|]. lia.
  - apply Qlt_bool_false_iff in Hlt. rewrite !Qabs_sub_inject_Z, <- Zle_Qle in Hlt.
    destruct (Z.ltb_spec t 0); [lia|].
    destruct (Z.ltb_spec (2 * now) (1001 * t)); [lia|]. reflexivity.
Qed.

Lemma convertTimestampToMs_threshold_witness :
  convertTimestampToMs 1700000000000 (Fin (inject_Z 3396603396))
  = Fin (inject_Z 3396603396000)
  /\ convertTimestampToMs 1700000000000 (Fin (inject_Z 3396603397))
     = Fin (inject_Z 3396603397).
Proof.
  split.
  - exact (convertTimestampToMs_threshold 1700000000000 3396603396 ltac:(lia)).
  - exact (convertTimestampToMs_threshold 1700000000000 3396603397 ltac:(lia)).
Defined.

(** X25: without a positive finite input there is neither mantissa nor
    unit: for a negative, infinite or [NaN] input and at most 100 decimals the
    result is "NaN undefined". *)
Theorem formatBytes_not_a_size (x : number) (decimals : option Z) :
  match x with Fin q => (q < 0)%Q | _ => True end ->
  (if default 2 decimals <? 0 then 0 else default 2 decimals) <= 100 ->
  formatBytes x decimals = Value "NaN undefined".
Proof.
  intros Hx Hdm. unfold formatBytes. cbv zeta.
  set (dm := if default 2 decimals <? 0 then 0 else default 2 decimals) in *.
  assert (Hdm0 : 0 <= dm)
    by (subst dm; destruct (Z.ltb_spec (default 2 decimals) 0); lia).
  assert (HNaN : toFixed NaN dm = Value "NaN").
  { unfold toFixed. destruct (Z.ltb_spec dm 0); [lia|].
    destruct (Z.ltb_spec 100 dm); [lia|]. reflexivity. }
  destruct x as [q| |[|]].
  - assert (Hneg : Qneg_bool q = true) by (apply Qlt_bool_iff; exact Hx).
    assert (Hz : Qeq_bool q 0 = false).
    { destruct (Qeq_bool q 0) eqn:H; [|reflexivity]. apply Qeq_bool_eq in H.
      rewrite H in Hx. discriminate. }
    simpl strict_eq. rewrite Hz. unfold Math_floor_log_quot. rewrite Hneg.
    simpl. rewrite HNaN. reflexivity.
  - simpl. rewrite HNaN. reflexivity.
  - simpl. rewrite HNaN. reflexivity.
  - simpl. rewrite HNaN. reflexivity.
Qed.

Lemma formatBytes_not_a_size_witness :
  formatBytes (Fin (-5)) None = Value "NaN undefined".
Proof.
  apply (formatBytes_not_a_size (Fin (-5)) None); [reflexivity|discriminate].
Defined.

(** X26: more than 100 decimals throw unless the input is zero: for every
    input other than zero the call throws the [RangeError] of [toFixed], and
    for zero it returns the literal all the same. *)
Theorem formatBytes_too_many_decimals (x : number) (decimals : Z) :
  100 < decimals ->
  formatBytes x (Some decimals)
  = if strict_eq x (Fin 0) then Value "0 Bytes" else RangeError.
Proof.
  intros Hdm. unfold formatBytes. cbv zeta. simpl default.
  destruct (strict_eq x (Fin 0)); [reflexivity|].
  destruct (Z.ltb_spec decimals 0); [lia|].
  unfold toFixed. destruct (Z.ltb_spec decimals 0); [lia|].
  destruct (Z.ltb_spec 100 decimals); [|lia]. reflexivity.
Qed.

Lemma formatBytes_too_many_decimals_witness :
  formatBytes (Fin 1024) (Some 101) = RangeError
  /\ formatBytes (Fin 0) (Some 101) = Value "0 Bytes".
Proof.
  split.
  - exact (formatBytes_too_many_decimals (Fin 1024) 101 ltac:(lia)).
  - exact (formatBytes_too_many_decimals (Fin 0) 101 ltac:(lia)).
Defined.



(** ** Two more on the handlers *)

(** X17: away from a "links" location a toggle never removes the item: when
    the location does not include "links", the listing and the [open] flag
    after a toggle of either kind are those before it, whatever the requests
    answer. *)
Theorem toggle_outside_links_keeps_listing (env : Env) (item : DriveCloudItem)
    (checked : bool) (w : World) :
  includes (location w) "links" = false ->
  items (run env (DoToggleStatus item checked) w).1.2 = items w
  /\ open (run env (DoToggleStatus item checked) w).1.2 = open w.
Proof.
  intros Hloc.
  destruct (run env (DoToggleStatus item checked) w) as [[end_ w'] log] eqn:Hrun.
  exact (toggleStatus_outside_links env item checked w w' end_ log Hloc Hrun).
Qed.

Lemma toggle_outside_links_keeps_listing_witness :
  items (run Samples.env_ok (DoToggleStatus Samples.report_item false)
           Samples.drive_world).1.2
  = [Samples.report_item; Samples.notes_item]
  /\ open (run Samples.env_ok (DoToggleStatus Samples.report_item false)
            Samples.drive_world).1.2
     = true.
Proof.
  apply (toggle_outside_links_keeps_listing Samples.env_ok Samples.report_item
           false Samples.drive_world).
  reflexivity.
Defined.

(** X28: two clicks from one render pause once: the flag that a toggle
    writes comes from the record its render captured, not from the current
    collection, so a second toggle run with the same captured record on the
    world the first one left sends the same flag and leaves the desktop
    configuration as the first one left it. *)
Theorem togglePause_same_render_is_idempotent (env : Env) (sync cfg : SyncPair)
    (w : World) :
  (forall p, respond env (SyncUpdatePaused (uuid sync) p) = None) ->
  respond env (SyncResetCache (uuid sync)) = None ->
  let r1 := SyncContextMenu.togglePause env sync (Some cfg) w [] in
  let r2 := SyncContextMenu.togglePause env sync (Some cfg) r1.1.2 [] in
  remote_calls r2.2 = remote_calls r1.2
  /\ remote_calls r1.2
     = [SyncUpdatePaused (uuid sync) (negb (paused cfg)); SyncResetCache (uuid sync)]
  /\ desktopConfig r2.1.2 = desktopConfig r1.1.2.
Proof.
  intros Hpaused Hreset. unfold_handler. rewrite Hpaused, Hreset. simpl.
  rewrite ?Hpaused, ?Hreset. simpl. split; [reflexivity|]. split; [reflexivity|].
  do 2 f_equal. rewrite map_map. apply map_ext. intros pair.
  destruct (decide (uuid pair = uuid sync)) as [Heq|Hne]; simpl.
  - destruct (decide (uuid pair = uuid sync)); [reflexivity|contradiction].
  - destruct (decide (uuid pair = uuid sync)); [contradiction|reflexivity].
Qed.

Lemma togglePause_same_render_is_idempotent_witness :
  let r1 := SyncContextMenu.togglePause Samples.env_ok Samples.music_pair
              (Some Samples.music_pair) Samples.world [] in
  let r2 := SyncContextMenu.togglePause Samples.env_ok Samples.music_pair
              (Some Samples.music_pair) r1.1.2 [] in
  desktopConfig r2.1.2 = desktopConfig r1.1.2.
Proof.
  exact (proj2 (proj2 (togglePause_same_render_is_idempotent Samples.env_ok
                         Samples.music_pair Samples.music_pair Samples.world
                         (fun _ => eq_refl) eq_refl))).
Defined.

(** * The utilities on binary64 numbers

    From here on [sub], [mul], [div], [parseFloat], [toFixed],
    [Number_toString], [Math_pow], [convertTimestampToMs], [unit_index] and
    [formatBytes] are those of [Binary64]. *)

Import Binary64.

(** ** Rounding to an integer *)

Lemma round_half_even_bounds (x : Q) :
  (inject_Z (round_half_even x) - (1 # 2) <= x)%Q
  /\ (x <= inject_Z (round_half_even x) + (1 # 2))%Q.
Proof.
  unfold round_half_even.
  pose proof (Qfloor_le x) as Hlo. pose proof (Qlt_floor x) as Hhi.
  rewrite inject_Z_plus in Hhi. change (inject_Z 1) with 1%Q in Hhi.
  set (n := Qfloor x) in *. clearbody n.
  destruct (Qcompare_spec (x - inject_Z n) (1 # 2)) as [H|H|H].
  - destruct (Z.even n); [|rewrite inject_Z_plus; change (inject_Z 1) with 1%Q];
      split; lra.
  - split; lra.
  - rewrite inject_Z_plus. change (inject_Z 1) with 1%Q. split; lra.
Qed.

Lemma inject_Z_sub (a b : Z) : (inject_Z (a - b) == inject_Z a - inject_Z b)%Q.
Proof. unfold Z.sub. rewrite inject_Z_plus, inject_Z_opp. reflexivity. Qed.

Lemma Qfloor_unique (x : Q) (z : Z) :
  (inject_Z z <= x)%Q -> (x < inject_Z z + 1)%Q -> Qfloor x = z.
Proof.
  intros Hlo Hhi.
  pose proof (Qfloor_le x) as Hlo'. pose proof (Qlt_floor x) as Hhi'.
  assert (H1 : (inject_Z z < inject_Z (Qfloor x + 1))%Q) by lra.
  assert (H2 : (inject_Z (Qfloor x) < inject_Z (z + 1))%Q)
    by (rewrite (inject_Z_plus z); change (inject_Z 1) with 1%Q; lra).
  rewrite <- Zlt_Qlt in H1, H2. lia.
Qed.

Lemma round_half_even_unique (x : Q) (z : Z) :
  (inject_Z z - (1 # 2) < x)%Q -> (x < inject_Z z + (1 # 2))%Q ->
  round_half_even x = z.
Proof.
  intros Hlo Hhi. unfold round_half_even.
  destruct (Qlt_le_dec x (inject_Z z)) as [Hlt|Hge].
  - assert (Hfloor : Qfloor x = z - 1).
    { apply Qfloor_unique; rewrite inject_Z_sub; change (inject_Z 1) with 1%Q; lra. }
    rewrite Hfloor.
    assert (H : (x - inject_Z (z - 1) ?= 1 # 2)%Q = Gt).
    { apply (proj1 (Qgt_alt _ _)). rewrite inject_Z_sub.
      change (inject_Z 1) with 1%Q. lra. }
    rewrite H. lia.
  - assert (Hfloor : Qfloor x = z) by (apply Qfloor_unique; lra).
    rewrite Hfloor.
    assert (H : (x - inject_Z z ?= 1 # 2)%Q = Lt) by (apply (proj1 (Qlt_alt _ _)); lra).
    rewrite H. reflexivity.
Qed.

Lemma round_half_even_comp (x y : Q) :
  (x == y)%Q -> round_half_even x = round_half_even y.
Proof.
  intros H. unfold round_half_even. rewrite (Qfloor_comp _ _ H).
  assert (H' : (x - inject_Z (Qfloor y) == y - inject_Z (Qfloor y))%Q)
    by (rewrite H; reflexivity).
  rewrite (Qcompare_comp _ _ H' _ _ (Qeq_refl _)). reflexivity.
Qed.

Lemma round_half_even_Z (z : Z) : round_half_even (inject_Z z) = z.
Proof. apply round_half_even_unique; lra. Qed.

(** ** The binary exponent *)

Lemma floor_log_comp (b : Z) (x y : Q) :
  (x == y)%Q -> floor_log b x = floor_log b y.
Proof.
  intros H. unfold floor_log.
  rewrite (Qleb_comp _ _ (Qeq_refl 1) _ _ H), (Qfloor_comp _ _ H).
  assert (H' : (- / x == - / y)%Q) by (rewrite H; reflexivity).
  unfold Qceiling. rewrite (Qfloor_comp _ _ H'). reflexivity.
Qed.

Lemma floor_log_unique (b : Z) (q : Q) (e : Z) :
  2 <= b -> (inject_Z b ^ e <= q)%Q -> (q < inject_Z b ^ (e + 1))%Q ->
  floor_log b q = e.
Proof.
  intros Hb Hlo Hhi.
  assert (Hb1 : (1 < inject_Z b)%Q) by (rewrite <- (Zlt_Qlt 1); lia).
  assert (Hpos : (0 < q)%Q).
  { eapply Qlt_le_trans; [|exact Hlo]. apply Qpower_0_lt. lra. }
  destruct (floor_log_spec b q Hb Hpos) as (Hlo' & Hhi').
  assert (H1 : (inject_Z b ^ e < inject_Z b ^ (floor_log b q + 1))%Q) by lra.
  assert (H2 : (inject_Z b ^ floor_log b q < inject_Z b ^ (e + 1))%Q) by lra.
  apply Qpower_lt_compat_l_inv in H1, H2; try exact Hb1. lia.
Qed.

Lemma pow2_pos (e : Z) : (0 < inject_Z 2 ^ e)%Q.
Proof. apply Qpower_0_lt. reflexivity. Qed.

Lemma pow2_plus (a b : Z) :
  (inject_Z 2 ^ (a + b) == inject_Z 2 ^ a * inject_Z 2 ^ b)%Q.
Proof. apply Qpower_plus. discriminate. Qed.

Lemma pow2_Z (n : Z) : 0 <= n -> (inject_Z 2 ^ n == inject_Z (2 ^ n))%Q.
Proof. intros H. symmetry. apply Zpower_Qpower. exact H. Qed.

(** The exponent of a positive rational between two powers of two. *)
Lemma floor_log_2_range (q : Q) (L H : Z) :
  (inject_Z 2 ^ L <= q)%Q -> (q < inject_Z 2 ^ (H + 1))%Q ->
  L <= floor_log 2 q <= H
  /\ (inject_Z 2 ^ floor_log 2 q <= q)%Q
  /\ (q < inject_Z 2 ^ (floor_log 2 q + 1))%Q.
Proof.
  intros Hlo Hhi.
  assert (Hpos : (0 < q)%Q) by (pose proof (pow2_pos L); lra).
  destruct (floor_log_spec 2 q ltac:(lia) Hpos) as (Hlo' & Hhi').
  assert (H1 : (inject_Z 2 ^ L < inject_Z 2 ^ (floor_log 2 q + 1))%Q) by lra.
  assert (H2 : (inject_Z 2 ^ floor_log 2 q < inject_Z 2 ^ (H + 1))%Q) by lra.
  apply Qpower_lt_compat_l_inv in H1, H2; try reflexivity.
  split; [lia|]. split; assumption.
Qed.

(** ** Rounding to binary64 *)

Lemma Qle_bool_false (x y : Q) : (y < x)%Q -> Qle_bool x y = false.
Proof.
  intros H. destruct (Qle_bool x y) eqn:Hle; [|reflexivity].
  apply Qle_bool_iff in Hle. lra.
Qed.

Lemma Qabs_pos_nonzero (q : Q) : (0 < Qabs q)%Q -> Qeq_bool q 0 = false.
Proof.
  intros H. destruct (Qeq_bool q 0) eqn:Heq; [|reflexivity].
  apply Qeq_bool_eq in Heq. rewrite Heq in H. discriminate.
Qed.

Lemma Qred_inject_Z (z : Z) : Qred (inject_Z z) = inject_Z z.
Proof.
  unfold Qred, inject_Z.
  pose proof (Z.ggcd_gcd z 1) as Hg. pose proof (Z.ggcd_correct_divisors z 1) as Hd.
  destruct (Z.ggcd z 1) as (g & a & b). simpl in Hg, Hd.
  rewrite Z.gcd_1_r in Hg. subst g. destruct Hd as (Ha & Hb).
  rewrite Z.mul_1_l in Ha, Hb. subst a b. reflexivity.
Qed.

(** Rounding respects the equality of rationals. *)
Lemma fl_comp (x y : Q) : (x == y)%Q -> fl x = fl y.
Proof.
  intros H. unfold fl.
  pose proof (Qabs_wd _ _ H) as Habs.
  rewrite (Qeqb_comp _ _ H _ _ (Qeq_refl 0)).
  rewrite (floor_log_comp 2 _ _ Habs).
  set (e := Z.max (floor_log 2 (Qabs y)) (-1022)).
  assert (Hdiv : (Qabs x / inject_Z 2 ^ (e - 52) == Qabs y / inject_Z 2 ^ (e - 52))%Q)
    by (rewrite Habs; reflexivity).
  rewrite (round_half_even_comp _ _ Hdiv).
  unfold Qneg_bool, Qlt_bool. rewrite (Qleb_comp _ _ (Qeq_refl 0) _ _ H).
  reflexivity.
Qed.

(** In the normal range the rounding keeps 53 significant bits. *)
Lemma fl_normal (q : Q) (E : Z) :
  -1022 <= E <= 1022 ->
  (inject_Z 2 ^ E <= Qabs q)%Q -> (Qabs q < inject_Z 2 ^ (E + 1))%Q ->
  let ulp := (inject_Z 2 ^ (E - 52))%Q in
  let r := round_half_even (Qabs q / ulp) in
  2 ^ 52 <= r <= 2 ^ 53
  /\ fl q = Fin (Qred (if Qneg_bool q then - (inject_Z r * ulp) else inject_Z r * ulp)).
Proof.
  intros HE Hlo Hhi ulp r.
  pose proof (pow2_pos E) as HposE. pose proof (pow2_pos (E - 52)) as Hulp.
  fold ulp in Hulp.
  assert (Hlog : floor_log 2 (Qabs q) = E)
    by (apply floor_log_unique; [lia|assumption..]).
  assert (H52 : (inject_Z (2 ^ 52) * ulp == inject_Z 2 ^ E)%Q).
  { rewrite <- pow2_Z by lia. unfold ulp. rewrite <- pow2_plus.
    replace (52 + (E - 52)) with E by lia. reflexivity. }
  assert (H53 : (inject_Z (2 ^ 53) * ulp == inject_Z 2 ^ (E + 1))%Q).
  { rewrite <- pow2_Z by lia. unfold ulp. rewrite <- pow2_plus.
    replace (53 + (E - 52)) with (E + 1) by lia. reflexivity. }
  assert (Hx1 : (inject_Z (2 ^ 52) <= Qabs q / ulp)%Q).
  { apply Qle_shift_div_l; [exact Hulp|]. rewrite H52. exact Hlo. }
  assert (Hx2 : (Qabs q / ulp < inject_Z (2 ^ 53))%Q).
  { apply Qlt_shift_div_r; [exact Hulp|]. rewrite H53. exact Hhi. }
  destruct (round_half_even_bounds (Qabs q / ulp)) as (Hr1 & Hr2).
  fold r in Hr1, Hr2.
  assert (Hr : 2 ^ 52 <= r <= 2 ^ 53).
  { assert (H1 : (inject_Z (2 ^ 52 - 1) < inject_Z r)%Q).
    { rewrite inject_Z_sub. change (inject_Z 1) with 1%Q. lra. }
    assert (H2 : (inject_Z r < inject_Z (2 ^ 53 + 1))%Q).
    { rewrite inject_Z_plus. change (inject_Z 1) with 1%Q. lra. }
    rewrite <- Zlt_Qlt in H1, H2. lia. }
  split; [exact Hr|].
  unfold fl. rewrite (Qabs_pos_nonzero q) by lra.
  rewrite Hlog. replace (Z.max E (-1022)) with E by lia.
  fold ulp. fold r. cbv zeta.
  rewrite Qle_bool_false; [reflexivity|].
  apply Qle_lt_trans with (inject_Z 2 ^ (E + 1))%Q.
  - rewrite <- H53. apply Qmult_le_compat_r; [|lra]. rewrite <- Zle_Qle. lia.
  - apply Qpower_lt_compat_l; [lia|reflexivity].
Qed.

(** The error of a rounding in the normal range is at most half a unit in
    the last place. *)
Lemma fl_error (q : Q) (E : Z) :
  -1022 <= E <= 1022 ->
  (inject_Z 2 ^ E <= Qabs q)%Q -> (Qabs q < inject_Z 2 ^ (E + 1))%Q ->
  exists u : Q,
    fl q = Fin u
    /\ (Qabs (u - q) <= inject_Z 2 ^ (E - 53))%Q.
Proof.
  intros HE Hlo Hhi.
  destruct (fl_normal q E HE Hlo Hhi) as (Hr & Hfl).
  set (ulp := (inject_Z 2 ^ (E - 52))%Q) in *.
  set (r := round_half_even (Qabs q / ulp)) in *.
  pose proof (pow2_pos (E - 52)) as Hulp. fold ulp in Hulp.
  assert (Hhalf : (inject_Z 2 ^ (E - 53) == ulp * (1 # 2))%Q).
  { unfold ulp. replace (E - 52) with ((E - 53) + 1) by lia.
    rewrite pow2_plus. change (inject_Z 2 ^ 1)%Q with 2%Q. field. }
  destruct (round_half_even_bounds (Qabs q / ulp)) as (Hr1 & Hr2).
  fold r in Hr1, Hr2.
  assert (Ha : (Qabs q == Qabs q / ulp * ulp)%Q) by (field; lra).
  assert (Hv1 : (inject_Z r * ulp - ulp * (1 # 2) <= Qabs q)%Q).
  { rewrite Ha. nra. }
  assert (Hv2 : (Qabs q <= inject_Z r * ulp + ulp * (1 # 2))%Q).
  { rewrite Ha at 1. nra. }
  eexists. split; [exact Hfl|]. rewrite Qred_correct, Hhalf.
  apply Qabs_Qle_condition.
  unfold Qneg_bool. destruct (Qlt_bool q 0) eqn:Hneg.
  - apply Qlt_bool_iff in Hneg. rewrite (Qabs_neg q) in Hv1, Hv2 by lra. split; lra.
  - apply Qlt_bool_false_iff in Hneg. rewrite (Qabs_pos q) in Hv1, Hv2 by lra.
    split; lra.
Qed.

(** The same bound from a bracket of the magnitude. *)
Lemma fl_error_below (q : Q) (L H : Z) :
  -1022 <= L -> H <= 1022 ->
  (inject_Z 2 ^ L <= Qabs q)%Q -> (Qabs q < inject_Z 2 ^ (H + 1))%Q ->
  exists u : Q,
    fl q = Fin u /\ (Qabs (u - q) <= inject_Z 2 ^ (H - 53))%Q.
Proof.
  intros HL HH Hlo Hhi.
  destruct (floor_log_2_range (Qabs q) L H Hlo Hhi) as (HE & Hlo' & Hhi').
  destruct (fl_error q (floor_log 2 (Qabs q)) ltac:(lia) Hlo' Hhi') as (u & Hu & Herr).
  exists u. split; [exact Hu|].
  eapply Qle_trans; [exact Herr|].
  apply Qpower_le_compat_l; [lia|discriminate].
Qed.

(** A negative number of normal magnitude rounds to a negative number. *)
Lemma fl_negative (q : Q) (L H : Z) :
  -1022 <= L -> H <= 1022 ->
  (q < 0)%Q ->
  (inject_Z 2 ^ L <= Qabs q)%Q -> (Qabs q < inject_Z 2 ^ (H + 1))%Q ->
  exists u : Q, fl q = Fin u /\ (u < 0)%Q.
Proof.
  intros HL HH Hneg Hlo Hhi.
  destruct (floor_log_2_range (Qabs q) L H Hlo Hhi) as (HE & Hlo' & Hhi').
  destruct (fl_normal q (floor_log 2 (Qabs q)) ltac:(lia) Hlo' Hhi') as (Hr & Hfl).
  eexists. split; [exact Hfl|].
  rewrite Qred_correct.
  assert (Hn : Qneg_bool q = true) by (apply Qlt_bool_iff; exact Hneg).
  rewrite Hn.
  set (r := round_half_even _) in *.
  pose proof (pow2_pos (floor_log 2 (Qabs q) - 52)) as Hulp.
  assert (Hrpos : (0 < inject_Z r)%Q) by (rewrite <- (Zlt_Qlt 0); lia).
  nra.
Qed.

(** A number of at most 53 significant bits in the normal range rounds to
    itself. *)
Lemma fl_exact (q : Q) (E r0 : Z) :
  -1022 <= E <= 1022 ->
  (inject_Z 2 ^ E <= Qabs q)%Q -> (Qabs q < inject_Z 2 ^ (E + 1))%Q ->
  (Qabs q == inject_Z r0 * inject_Z 2 ^ (E - 52))%Q ->
  fl q = Fin (Qred q).
Proof.
  intros HE Hlo Hhi Hr0.
  destruct (fl_normal q E HE Hlo Hhi) as (Hr & Hfl).
  set (ulp := (inject_Z 2 ^ (E - 52))%Q) in *.
  pose proof (pow2_pos (E - 52)) as Hulp. fold ulp in Hulp.
  assert (Hx : (Qabs q / ulp == inject_Z r0)%Q) by (rewrite Hr0; field; lra).
  rewrite (round_half_even_comp _ _ Hx), round_half_even_Z in Hfl.
  rewrite Hfl. f_equal. apply Qred_complete.
  unfold Qneg_bool. destruct (Qlt_bool q 0) eqn:Hneg.
  - apply Qlt_bool_iff in Hneg. rewrite <- Hr0, (Qabs_neg q) by lra. ring.
  - apply Qlt_bool_false_iff in Hneg. rewrite <- Hr0, (Qabs_pos q) by lra.
    reflexivity.
Qed.

(** Integers below 2^53 in magnitude are binary64 numbers. *)
Lemma fl_integer (z : Z) :
  Z.abs z < 2 ^ 53 -> fl (inject_Z z) = Fin (inject_Z z).
Proof.
  intros Hz. destruct (Z.eq_dec z 0) as [->|Hnz]; [reflexivity|].
  rewrite <- (Qred_inject_Z z) at 2.
  assert (Hpos : 0 < Z.abs z) by lia.
  destruct (Z.log2_spec (Z.abs z) Hpos) as (Hlo & Hhi).
  pose proof (Z.log2_nonneg (Z.abs z)) as Hnonneg.
  set (E := Z.log2 (Z.abs z)) in *.
  assert (HE : E <= 52).
  { assert (H : 2 ^ E < 2 ^ 53) by lia. apply Z.pow_lt_mono_r_iff in H; lia. }
  change (Z.succ E) with (E + 1) in Hhi.
  apply (fl_exact (inject_Z z) E (Z.abs z * 2 ^ (52 - E))); [lia| | |].
  - change (Qabs (inject_Z z)) with (inject_Z (Z.abs z)).
    rewrite pow2_Z by lia. rewrite <- Zle_Qle. exact Hlo.
  - change (Qabs (inject_Z z)) with (inject_Z (Z.abs z)).
    rewrite pow2_Z by lia. rewrite <- Zlt_Qlt. exact Hhi.
  - change (Qabs (inject_Z z)) with (inject_Z (Z.abs z)).
    rewrite inject_Z_mult, <- pow2_Z by lia.
    rewrite <- Qmult_assoc, <- pow2_plus.
    replace (52 - E + (E - 52)) with 0 by lia.
    change (inject_Z 2 ^ 0)%Q with 1%Q. ring.
Qed.

(** Dividing a positive binary64 number by a power of two is exact as long
    as the quotient stays at least 1. *)
Lemma fl_scale (q : Q) (k : Z) :
  binary64 q = true -> 0 <= k ->
  (1 <= q / inject_Z 2 ^ k)%Q -> (q < inject_Z 2 ^ 1023)%Q ->
  fl (q / inject_Z 2 ^ k) = Fin (Qred (q / inject_Z 2 ^ k)).
Proof.
  intros Hb Hk Hone Hmax.
  pose proof (pow2_pos k) as Hpk.
  assert (Hq : (inject_Z 2 ^ k <= q)%Q).
  { assert (H : (q == q / inject_Z 2 ^ k * inject_Z 2 ^ k)%Q) by (field; lra).
    rewrite H. nra. }
  assert (Hpos : (0 < q)%Q) by lra.
  assert (Habs : (Qabs q == q)%Q) by (apply Qabs_pos; lra).
  destruct (floor_log_2_range (Qabs q) k 1022) as (HE & Hlo & Hhi);
    [rewrite Habs; exact Hq|rewrite Habs; exact Hmax|].
  set (E := floor_log 2 (Qabs q)) in *.
  destruct (fl_normal q E ltac:(lia) Hlo Hhi) as (Hr & Hfl).
  set (r := round_half_even _) in *.
  rewrite (positive_not_neg q Hpos) in Hfl.
  unfold binary64 in Hb. rewrite Hfl in Hb. simpl in Hb.
  apply Qeq_bool_eq in Hb. rewrite Qred_correct in Hb.
  set (q' := (q / inject_Z 2 ^ k)%Q) in *.
  assert (Habs' : (Qabs q' == q')%Q) by (apply Qabs_pos; lra).
  assert (Hsplit : forall a,
    (inject_Z 2 ^ (a - k) * inject_Z 2 ^ k == inject_Z 2 ^ a)%Q).
  { intros a. rewrite <- pow2_plus. replace (a - k + k) with a by lia. reflexivity. }
  apply (fl_exact q' (E - k) r); [lia| | |].
  - rewrite Habs'. unfold q'. apply Qle_shift_div_l; [exact Hpk|].
    rewrite Hsplit, <- Habs. exact Hlo.
  - rewrite Habs'. unfold q'. apply Qlt_shift_div_r; [exact Hpk|].
    replace (E - k + 1) with (E + 1 - k) by lia.
    rewrite Hsplit, <- Habs. exact Hhi.
  - rewrite Habs'. unfold q'. rewrite <- Hb.
    replace (E - k - 52) with (E - 52 - k) by lia.
    rewrite <- (Hsplit (E - 52)). field. lra.
Qed.

(** A number within half a unit in the last place of an integer inside a
    binade rounds to that integer. *)
Lemma fl_near_integer (y : Q) (m E : Z) :
  0 <= E <= 52 -> 2 ^ E < m < 2 ^ (E + 1) ->
  (Qabs (y - inject_Z m) < inject_Z 2 ^ (E - 53))%Q ->
  fl y = Fin (inject_Z m).
Proof.
  intros HE Hm Hnear.
  assert (Hhalf : (inject_Z 2 ^ (E - 53) <= 1 # 2)%Q).
  { change (1 # 2)%Q with (inject_Z 2 ^ (-1))%Q.
    apply Qpower_le_compat_l; [lia|discriminate]. }
  destruct (Qabs_Qlt_condition (y - inject_Z m) (inject_Z 2 ^ (E - 53))) as (Hcond & _).
  specialize (Hcond Hnear).
  assert (Hm1 : (inject_Z (2 ^ E) + 1 <= inject_Z m)%Q).
  { change 1%Q with (inject_Z 1). rewrite <- inject_Z_plus, <- Zle_Qle. lia. }
  assert (Hm2 : (inject_Z m + 1 <= inject_Z (2 ^ (E + 1)))%Q).
  { change 1%Q with (inject_Z 1). rewrite <- inject_Z_plus, <- Zle_Qle. lia. }
  assert (Hypos : (0 < y)%Q).
  { assert (0 < inject_Z (2 ^ E))%Q by (rewrite <- (Zlt_Qlt 0); lia). lra. }
  assert (Habs : (Qabs y == y)%Q) by (apply Qabs_pos; lra).
  destruct (fl_normal y E ltac:(lia)) as (Hr & Hfl).
  { rewrite Habs, pow2_Z by lia. lra. }
  { rewrite Habs, pow2_Z by lia. lra. }
  set (ulp := (inject_Z 2 ^ (E - 52))%Q) in *.
  pose proof (pow2_pos (E - 52)) as Hulp. fold ulp in Hulp.
  assert (Hinv : (inject_Z (2 ^ (52 - E)) * ulp == 1)%Q).
  { rewrite <- pow2_Z by lia. unfold ulp. rewrite <- pow2_plus.
    replace (52 - E + (E - 52)) with 0 by lia. reflexivity. }
  assert (Hround : round_half_even (Qabs y / ulp) = m * 2 ^ (52 - E)).
  { assert (Hsplit : (inject_Z 2 ^ (E - 53) == ulp * (1 # 2))%Q).
    { unfold ulp. replace (E - 52) with ((E - 53) + 1) by lia.
      rewrite pow2_plus. change (inject_Z 2 ^ 1)%Q with 2%Q. field. }
    rewrite Hsplit in Hcond.
    assert (Hmq : (inject_Z (m * 2 ^ (52 - E)) == inject_Z m / ulp)%Q).
    { rewrite inject_Z_mult. rewrite <- (Qmult_1_r (inject_Z m)) at 2.
      rewrite <- Hinv. field. lra. }
    assert (Hyq : (Qabs y / ulp == inject_Z m / ulp + (y - inject_Z m) / ulp)%Q)
      by (rewrite Habs; field; lra).
    apply round_half_even_unique; rewrite Hmq, Hyq.
    - assert (- (1 # 2) < (y - inject_Z m) / ulp)%Q; [|lra].
      apply Qlt_shift_div_l; [exact Hulp|]. lra.
    - assert ((y - inject_Z m) / ulp < 1 # 2)%Q; [|lra].
      apply Qlt_shift_div_r; [exact Hulp|]. lra. }
  rewrite Hround in Hfl. rewrite Hfl, (positive_not_neg y Hypos).
  rewrite <- (Qred_inject_Z m). f_equal. apply Qred_complete.
  rewrite inject_Z_mult, <- Qmult_assoc, Hinv. ring.
Qed.

(** ** [convertTimestampToMs] *)

Lemma sub_integers (a b : Z) :
  Z.abs (a - b) < 2 ^ 53 ->
  sub (Fin (inject_Z a)) (Fin (inject_Z b)) = Fin (inject_Z (a - b)).
Proof.
  intros H. unfold sub. simpl JS.sub. unfold round.
  rewrite (fl_comp _ (inject_Z (a - b))).
  - apply fl_integer. exact H.
  - rewrite inject_Z_sub. reflexivity.
Qed.

Lemma mul_integers (a b : Z) :
  Z.abs (a * b) < 2 ^ 53 ->
  mul (Fin (inject_Z a)) (Fin (inject_Z b)) = Fin (inject_Z (a * b)).
Proof.
  intros H. unfold mul. simpl JS.mul. unfold round.
  rewrite (fl_comp _ (inject_Z (a * b))).
  - apply fl_integer. exact H.
  - rewrite inject_Z_mult. reflexivity.
Qed.

Lemma lt_abs_integers (a b : Z) :
  lt (Math_abs (Fin (inject_Z a))) (Math_abs (Fin (inject_Z b)))
  = (Z.abs a <? Z.abs b).
Proof.
  change (Qlt_bool (inject_Z (Z.abs a)) (inject_Z (Z.abs b)) = (Z.abs a <? Z.abs b)).
  destruct (Z.ltb_spec (Z.abs a) (Z.abs b)) as [H|H].
  - apply Qlt_bool_iff. rewrite <- Zlt_Qlt. exact H.
  - apply Qlt_bool_false_iff. rewrite <- Zle_Qle. exact H.
Qed.

(** On whole timestamps every step of [convertTimestampToMs] is exact, and
    the function returns the reading that is nearer to the clock, the one
    times 1000 on a tie. *)
Lemma convertTimestampToMs_whole (now t : Z) :
  0 < now < 2 ^ 42 -> Z.abs t < 2 ^ 43 ->
  convertTimestampToMs now (Fin (inject_Z t))
  = Fin (inject_Z (if Z.abs (now - t) <? Z.abs (now - t * 1000) then t else t * 1000)).
Proof.
  intros Hnow Ht.
  pose proof (eq_refl : 2 ^ 42 = 4398046511104) as E42.
  pose proof (eq_refl : 2 ^ 43 = 8796093022208) as E43.
  pose proof (eq_refl : 2 ^ 53 = 9007199254740992) as E53.
  unfold convertTimestampToMs. cbv zeta.
  rewrite (mul_integers t 1000) by lia.
  rewrite (sub_integers now t), (sub_integers now (t * 1000)) by lia.
  rewrite lt_abs_integers.
  destruct (Z.abs (now - t) <? Z.abs (now - t * 1000)); [reflexivity|].
  unfold Math_floor, of_integral. rewrite Qfloor_Z. reflexivity.
Qed.

(** A millisecond timestamp near the clock, divided by 1000 in binary64 and
    handed to the function, comes back as it was, from 2^40 ms (November
    2004) up to 1000 * 2^31 ms (January 2038): the quotient is off by at most
    2^-23, the product by less than 2^-13, half the spacing of the binary64
    numbers around [m]. *)
Lemma convertTimestampToMs_quotient (now m : Z) :
  0 < now < 2 ^ 42 -> 1001 * Z.abs (now - m) < 999 * now ->
  2 ^ 40 < m < 1000 * 2 ^ 31 ->
  convertTimestampToMs now (div (Fin (inject_Z m)) (Fin (inject_Z 1000)))
  = Fin (inject_Z m).
Proof.
  intros Hnow Hnear Hm.
  pose proof (eq_refl : 2 ^ 42 = 4398046511104) as E42.
  pose proof (eq_refl : 2 ^ 40 = 1099511627776) as E40.
  pose proof (eq_refl : 2 ^ 41 = 2199023255552) as E41.
  pose proof (eq_refl : 2 ^ 31 = 2147483648) as E31.
  pose proof (eq_refl : 2 ^ 53 = 9007199254740992) as E53.
  set (M := inject_Z m). set (N := inject_Z now).
  assert (HM1 : ((1099511627777 # 1) <= M)%Q)
    by (change (inject_Z 1099511627777 <= M)%Q; unfold M; rewrite <- Zle_Qle; lia).
  assert (HM2 : (M <= (2147483647999 # 1))%Q)
    by (change (M <= inject_Z 2147483647999)%Q; unfold M; rewrite <- Zle_Qle; lia).
  assert (HN : (N <= (4398046511103 # 1))%Q)
    by (change (N <= inject_Z 4398046511103)%Q; unfold N; rewrite <- Zle_Qle; lia).
  assert (Hgap : (Qabs (N - M) + (1 # 1000) <= N - M * (1 # 1000))%Q).
  { unfold N, M. rewrite Qabs_sub_inject_Z.
    destruct (Z_le_gt_dec now m) as [Hle|Hgt].
    - assert (H : 1001 * m + 1 <= 2000 * now) by lia.
      rewrite Zle_Qle, inject_Z_plus, !inject_Z_mult in H.
      replace (Z.abs (now - m)) with (m - now) by lia.
      rewrite inject_Z_sub.
      change (inject_Z 1001) with (1001 # 1)%Q in H.
      change (inject_Z 2000) with (2000 # 1)%Q in H.
      change (inject_Z 1) with 1%Q in H. lra.
    - replace (Z.abs (now - m)) with (now - m) by lia.
      rewrite inject_Z_sub. fold M. lra. }
  assert (Hbig : ((1001 # 1) * M <= (2000 # 1) * N)%Q).
  { assert (H : 1001 * m <= 2000 * now) by lia.
    rewrite Zle_Qle, !inject_Z_mult in H. exact H. }
  (* the quotient *)
  assert (Hdiv : div (Fin M) (Fin (inject_Z 1000)) = fl (M / inject_Z 1000))
    by reflexivity.
  rewrite Hdiv.
  assert (Hx : (Qabs (M / inject_Z 1000) == M / inject_Z 1000)%Q).
  { apply Qabs_pos. apply Qle_shift_div_l; [reflexivity|]. lra. }
  destruct (fl_error (M / inject_Z 1000) 30 ltac:(lia)) as (s & Hs & Herr).
  { rewrite Hx. apply Qle_shift_div_l; [reflexivity|].
    change (inject_Z 2 ^ 30 * inject_Z 1000)%Q with (1073741824000 # 1)%Q. lra. }
  { rewrite Hx. apply Qlt_shift_div_r; [reflexivity|].
    change (inject_Z 2 ^ (30 + 1) * inject_Z 1000)%Q with (2147483648000 # 1)%Q. lra. }
  rewrite Hs.
  change (inject_Z 2 ^ (30 - 53))%Q with (1 # 8388608)%Q in Herr.
  apply Qabs_Qle_condition in Herr.
  unfold Qdiv in Herr. change (/ inject_Z 1000)%Q with (1 # 1000)%Q in Herr.
  (* the product *)
  assert (Hmul : mul (Fin s) (Fin (inject_Z 1000)) = Fin M).
  { change (mul (Fin s) (Fin (inject_Z 1000))) with (fl (s * inject_Z 1000)).
    apply (fl_near_integer _ m 40); [lia|lia|].
    change (inject_Z 2 ^ (40 - 53))%Q with (1 # 8192)%Q.
    change (inject_Z 1000) with (1000 # 1)%Q. fold M.
    apply Qabs_Qlt_condition. split; lra. }
  (* the two distances *)
  assert (Hsub2 : sub (Fin N) (Fin M) = Fin (inject_Z (now - m)))
    by (apply sub_integers; lia).
  pose proof (Qabs_nonneg (N - M)) as Hdist.
  assert (Hw1 : (inject_Z 2 ^ (-1) <= Qabs (N - s))%Q).
  { change (inject_Z 2 ^ (-1))%Q with (1 # 2)%Q. apply Qabs_ge. lra. }
  assert (Hw2 : (Qabs (N - s) < inject_Z 2 ^ (41 + 1))%Q).
  { change (inject_Z 2 ^ (41 + 1))%Q with (4398046511104 # 1)%Q.
    apply Qabs_Qlt_condition. split; lra. }
  destruct (fl_error_below (N - s) (-1) 41 ltac:(lia) ltac:(lia) Hw1 Hw2)
    as (u & Hu & Huerr).
  change (inject_Z 2 ^ (41 - 53))%Q with (1 # 4096)%Q in Huerr.
  apply Qabs_Qle_condition in Huerr.
  assert (Hsub1 : sub (Fin N) (Fin s) = Fin u) by exact Hu.
  unfold convertTimestampToMs. cbv zeta. fold N.
  rewrite Hmul, Hsub1, Hsub2.
  assert (Hlt : lt (Math_abs (Fin u)) (Math_abs (Fin (inject_Z (now - m)))) = false).
  { change (Qlt_bool (Qabs u) (Qabs (inject_Z (now - m))) = false).
    apply Qlt_bool_false_iff.
    assert (Heq : (inject_Z (now - m) == N - M)%Q) by apply inject_Z_sub.
    rewrite Heq. apply Qabs_ge. lra. }
  rewrite Hlt. unfold Math_floor, of_integral. unfold M. rewrite Qfloor_Z.
  reflexivity.
Qed.

(** On whole timestamps the arithmetic reading and the binary64 reading
    agree. *)
Lemma convertTimestampToMs_readings_agree (now t : Z) :
  0 < now < 2 ^ 42 -> Z.abs t < 2 ^ 43 ->
  convertTimestampToMs now (Fin (inject_Z t))
  = Utils.convertTimestampToMs now (Fin (inject_Z t)).
Proof.
  intros Hnow Ht. rewrite convertTimestampToMs_whole by assumption.
  rewrite convertTimestampToMs_Fin, <- inject_Z_mult, Qfloor_Z.
  destruct (Z.ltb_spec (Z.abs (now - t)) (Z.abs (now - t * 1000))) as [H|H].
  - rewrite Zlt_Qlt, <- !Qabs_sub_inject_Z in H.
    apply Qlt_bool_iff in H. rewrite H. reflexivity.
  - rewrite Zle_Qle, <- !Qabs_sub_inject_Z in H.
    apply Qlt_bool_false_iff in H. rewrite H. reflexivity.
Qed.




(** Fractions of a second are rounded before they are floored: nine
    thousandths of a second are nine milliseconds, although the binary64
    number nearest to 0.009 lies below it; and a negative instant that tiny
    is taken down to -1. *)
Example convertTimestampToMs_fractions :
  convertTimestampToMs 1700000000000 (fl (9 # 1000)) = Fin 9
  /\ convertTimestampToMs 1700000000000 (fl (-1 # 10000000000)) = Fin (-1).
Proof. split; vm_compute; reflexivity. Qed.

(** ** [formatBytes] *)

Lemma Math_log_positive (eng : Engine) (q : Q) :
  (0 < q)%Q -> ~ (q == 1)%Q -> Math_log eng (Fin q) = ln eng q.
Proof.
  intros H H1. unfold Math_log.
  rewrite (positive_not_neg q H), (positive_not_zero q H).
  destruct (Qeq_bool q 1) eqn:Heq; [|reflexivity].
  apply Qeq_bool_eq in Heq. contradiction.
Qed.

Lemma log_sound_spec (eng : Engine) (q : Q) :
  log_sound eng q = true ->
  exists a : Q,
    ln eng q = Fin a
    /\ (inject_Z 2 ^ (-60) <= Qabs a)%Q /\ (Qabs a < inject_Z 2 ^ 10)%Q
    /\ ((q < 1)%Q -> (a < 0)%Q) /\ ((1 <= q)%Q -> (0 < a)%Q).
Proof.
  unfold log_sound. destruct (ln eng q) as [a| |]; try discriminate.
  intros H. apply andb_true_iff in H as (H & Hsign).
  apply andb_true_iff in H as (Hlo & Hhi).
  apply Qle_bool_iff in Hlo. apply Qlt_bool_iff in Hhi.
  apply Bool.eqb_prop in Hsign.
  exists a. split; [reflexivity|]. split; [exact Hlo|]. split; [exact Hhi|].
  change (inject_Z 2 ^ (-60))%Q with (1 # 1152921504606846976)%Q in Hlo.
  split; intros Hq.
  - apply Qlt_bool_iff. change (Qneg_bool a = true).
    rewrite Hsign. apply Qlt_bool_iff. exact Hq.
  - assert (Hneg : Qneg_bool a = false).
    { rewrite Hsign. apply Qlt_bool_false_iff. exact Hq. }
    apply Qlt_bool_false_iff in Hneg. rewrite (Qabs_pos a Hneg) in Hlo. lra.
Qed.

Lemma toFixed_total (x : number) (f : Z) :
  0 <= f <= 100 -> exists s, toFixed x f = Value s.
Proof.
  intros Hf. unfold toFixed.
  destruct (Z.ltb_spec f 0); [lia|]. destruct (Z.ltb_spec 100 f); [lia|].
  simpl orb. cbv iota. destruct x as [q| |]; [|eauto..].
  destruct (Qle_bool _ _); eauto.
Qed.

(** The steps of [formatBytes] on a non-zero finite input. *)
Lemma formatBytes_steps (eng : Engine) (q : Q) (decimals : option Z) :
  Qeq_bool q 0 = false ->
  formatBytes eng (Fin q) decimals
  = (fixed ← toFixed (div (Fin q) (Math_pow 1024 (unit_index eng (Fin q))))
               (if default 2 decimals <? 0 then 0 else default 2 decimals);
     mret (Number_toString (parseFloat fixed) +:+ " " +:+
           string_or_undefined (index sizes (unit_index eng (Fin q))))).
Proof.
  intros H. unfold formatBytes. cbv zeta.
  change (strict_eq (Fin q) (Fin 0)) with (Qeq_bool q 0). rewrite H. reflexivity.
Qed.

(** Below one the computed index is negative on every engine whose
    logarithm has the right sign: the quotient of a negative by a positive
    number is negative, it is too large in magnitude to round to zero, and
    the floor of a negative number is at most -1. *)
Lemma unit_index_below_one (eng : Engine) (q : Q) :
  (0 < q)%Q -> (q < 1)%Q ->
  log_sound eng q = true -> log_sound eng (inject_Z 1024) = true ->
  exists i, unit_index eng (Fin q) = Int i /\ i < 0.
Proof.
  intros Hpos Hlt Hq Hk.
  destruct (log_sound_spec eng q Hq) as (a & Ha & Ha1 & Ha2 & Hneg & _).
  destruct (log_sound_spec eng (inject_Z 1024) Hk) as (b & Hb & Hb1 & Hb2 & _ & Hbpos).
  specialize (Hneg Hlt). specialize (Hbpos ltac:(discriminate)).
  unfold unit_index. rewrite (Math_log_positive eng q Hpos) by lra.
  rewrite (Math_log_positive eng (inject_Z 1024)) by (reflexivity || discriminate).
  rewrite Ha, Hb.
  assert (Hdiv : div (Fin a) (Fin b) = fl (a / b)).
  { unfold div. simpl JS.div. rewrite (positive_not_zero b Hbpos). reflexivity. }
  rewrite Hdiv.
  rewrite (Qabs_neg a) in Ha1, Ha2 by lra. rewrite (Qabs_pos b) in Hb1, Hb2 by lra.
  change (inject_Z 2 ^ (-60))%Q with (1 # 1152921504606846976)%Q in Ha1, Hb1.
  change (inject_Z 2 ^ 10)%Q with (1024 # 1)%Q in Ha2, Hb2.
  assert (Hquot : (a / b < 0)%Q).
  { apply Qlt_shift_div_r; [exact Hbpos|]. lra. }
  assert (Hopp : (- (a / b) == (- a) / b)%Q) by (field; lra).
  destruct (fl_negative (a / b) (-70) 70 ltac:(lia) ltac:(lia) Hquot)
    as (u & Hu & Hneg').
  - rewrite (Qabs_neg (a / b)) by lra.
    change (inject_Z 2 ^ (-70))%Q with (1 # 1180591620717411303424)%Q.
    rewrite Hopp. apply Qle_shift_div_l; [exact Hbpos|]. nra.
  - rewrite (Qabs_neg (a / b)) by lra.
    change (inject_Z 2 ^ (70 + 1))%Q with (2361183241434822606848 # 1)%Q.
    rewrite Hopp. apply Qlt_shift_div_r; [exact Hbpos|]. nra.
  - rewrite Hu. exists (Qfloor u). split; [reflexivity|].
    pose proof (Qfloor_le u) as Hfl.
    assert (H : (inject_Z (Qfloor u) < inject_Z 0)%Q)
      by (change (inject_Z 0) with 0%Q; lra).
    rewrite <- Zlt_Qlt in H. exact H.
Qed.

(** C9: for an input strictly between 0 and 1 the computed unit index is a
    negative integer on every engine whose logarithm has the right sign; the
    lookup in the unit table is out of bounds, and the unit that is rendered
    after the mantissa is "undefined", which is none of the nine unit names
    (with more than 100 decimals nothing is rendered, [toFixed] throws).
    Nor is a unit name found for a negative, zero, infinite or [NaN] input:
    a unit name needs a finite input above 0, hence of at least 1, and the
    literal "0 Bytes" is returned for 0. *)
Theorem formatBytes_unit_below_one (eng : Engine) (q : Q) (decimals : option Z) :
  (0 < q)%Q -> (q < 1)%Q ->
  log_sound eng q = true -> log_sound eng (inject_Z 1024) = true ->
  let dm := if default 2 decimals <? 0 then 0 else default 2 decimals in
  (exists i,
     unit_index eng (Fin q) = Int i
     /\ i < 0
     /\ index sizes (unit_index eng (Fin q)) = None
     /\ (dm <= 100 ->
         exists mantissa,
           formatBytes eng (Fin q) decimals = Value (mantissa +:+ " undefined"))
     /\ (100 < dm -> formatBytes eng (Fin q) decimals = RangeError))
  /\ ("undefined" ∉ sizes)
  /\ (forall x : number,
        match x with Fin q' => (q' <= 0)%Q | _ => True end ->
        index sizes (unit_index eng x) = None)
  /\ formatBytes eng (Fin 0) decimals = Value "0 Bytes".
Proof.
  intros Hpos Hlt Hq Hk dm. split; [|split; [|split; [|reflexivity]]].
  - destruct (unit_index_below_one eng q Hpos Hlt Hq Hk) as (i & Hi & Hneg).
    assert (Hdm0 : 0 <= dm)
      by (subst dm; destruct (Z.ltb_spec (default 2 decimals) 0); lia).
    assert (Hidx : index sizes (Int i) = None).
    { unfold index. destruct (Z.ltb_spec i 0); [reflexivity|lia]. }
    exists i. split; [exact Hi|]. split; [exact Hneg|].
    rewrite (formatBytes_steps eng q decimals (positive_not_zero q Hpos)).
    fold dm. rewrite Hi, Hidx. split; [reflexivity|]. split.
    + intros Hdm.
      destruct (toFixed_total (div (Fin q) (Math_pow 1024 (Int i))) dm) as (s & Hs);
        [lia|].
      rewrite Hs. eexists. reflexivity.
    + intros Hdm. unfold toFixed. destruct (Z.ltb_spec 100 dm); [|lia].
      rewrite orb_true_r. reflexivity.
  - apply (bool_decide_unpack _). vm_compute. exact I.
  - intros x Hx. unfold unit_index.
    destruct x as [q'| |[|]].
    + unfold Math_log at 1. destruct (Qneg_bool q') eqn:Hneg.
      * destruct (Math_log eng (Fin (inject_Z 1024))) as [b| |]; reflexivity.
      * apply Qlt_bool_false_iff in Hneg.
        assert (Hz : Qeq_bool q' 0 = true) by (apply Qeq_bool_iff; lra).
        rewrite Hz.
        destruct (Math_log eng (Fin (inject_Z 1024))) as [b| |]; reflexivity.
    + destruct (Math_log eng (Fin (inject_Z 1024))) as [b| |]; reflexivity.
    + destruct (Math_log eng (Fin (inject_Z 1024))) as [b| |]; reflexivity.
    + destruct (Math_log eng (Fin (inject_Z 1024))) as [b| |]; reflexivity.
Qed.

Lemma formatBytes_unit_below_one_witness :
  exists i,
    unit_index EngineSamples.engine (Fin (1 # 2)) = Int i
    /\ i < 0
    /\ index sizes (unit_index EngineSamples.engine (Fin (1 # 2))) = None
    /\ exists mantissa,
         formatBytes EngineSamples.engine (Fin (1 # 2)) None
         = Value (mantissa +:+ " undefined").
Proof.
  destruct (formatBytes_unit_below_one EngineSamples.engine (1 # 2) None
              eq_refl eq_refl eq_refl eq_refl)
    as ((i & Hi & Hneg & Hidx & Hfmt & _) & _).
  exists i. split; [exact Hi|]. split; [exact Hneg|]. split; [exact Hidx|].
  apply Hfmt. discriminate.
Defined.

(** The index of the base itself is 1 whatever the engine returns for its
    logarithm: a finite number other than zero divided by itself is 1. *)
Lemma unit_index_base (eng : Engine) :
  log_sound eng (inject_Z 1024) = true ->
  unit_index eng (Fin (inject_Z 1024)) = Int 1.
Proof.
  intros Hk.
  destruct (log_sound_spec eng (inject_Z 1024) Hk) as (b & Hb & _ & _ & _ & Hbpos).
  specialize (Hbpos ltac:(discriminate)).
  unfold unit_index.
  rewrite (Math_log_positive eng (inject_Z 1024)) by (reflexivity || discriminate).
  rewrite Hb. unfold div. simpl JS.div. rewrite (positive_not_zero b Hbpos).
  unfold round. rewrite (fl_comp (b / b) 1) by (field; lra). reflexivity.
Qed.

(** The powers of 1024 up to the eighth are binary64 numbers. *)
Lemma Math_pow_table (i : Z) :
  0 <= i <= 8 -> Math_pow 1024 (Int i) = Fin (inject_Z (1024 ^ i)).
Proof.
  intros Hi.
  assert (H : i = 0 \/ i = 1 \/ i = 2 \/ i = 3 \/ i = 4 \/ i = 5 \/ i = 6
              \/ i = 7 \/ i = 8) by lia.
  repeat (destruct H as [->|H]; [vm_compute; reflexivity|]).
  subst. vm_compute. reflexivity.
Qed.

Lemma pow1024_pow2 (i : Z) :
  0 <= i -> (inject_Z 1024 ^ i == inject_Z 2 ^ (10 * i))%Q.
Proof.
  intros Hi. rewrite <- !Zpower_Qpower by lia. rewrite Z.pow_mul_r by lia.
  reflexivity.
Qed.




(** Below one the index need not be the floor of the logarithm, and the
    divisor can vanish: the largest binary64 number below 1024^-1 has the
    index -1 (its logarithm rounds to that of 1024^-1), and for the smallest
    positive binary64 number, 2^-1074, the divisor 1024^-108 is rounded to
    zero. *)
Example formatBytes_below_one :
  binary64 (inject_Z (2 ^ 53 - 1) / inject_Z (2 ^ 63)) = true
  /\ (inject_Z (2 ^ 53 - 1) / inject_Z (2 ^ 63) < inject_Z 1024 ^ (-1))%Q
  /\ unit_index EngineSamples.engine (Fin (inject_Z (2 ^ 53 - 1) / inject_Z (2 ^ 63)))
     = Int (-1)
  /\ formatBytes EngineSamples.engine
       (Fin (inject_Z (2 ^ 53 - 1) / inject_Z (2 ^ 63))) None
     = Value "1 undefined"
  /\ unit_index EngineSamples.engine (Fin (inject_Z 2 ^ (-1074))) = Int (-108)
  /\ Math_pow 1024 (Int (-108)) = Fin 0
  /\ formatBytes EngineSamples.engine (Fin (inject_Z 2 ^ (-1074))) None
     = Value "Infinity undefined".
Proof. repeat split; vm_compute; reflexivity. Qed.

(** The mantissa is printed as a number, not as [toFixed] wrote it: trailing
    zeros go, and with many decimals no more than 17 significant digits
    remain. *)
Example formatBytes_prints_a_number :
  formatBytes EngineSamples.engine (Fin 1234567) (Some 3) = Value "1.177 MB"
  /\ formatBytes EngineSamples.engine (Fin 1234567) (Some 20)
     = Value "1.1773748397827148 MB"
  /\ formatBytes EngineSamples.engine (Fin 1536) None = Value "1.5 KB".
Proof. repeat split; vm_compute; reflexivity. Qed.
